(** * ETL pipeline orchestration (03-pipeline-etl/src/pipeline.py)

    A shallow embedding of class [ETLPipeline]: its constructor, the three
    phase methods [extract], [transform], [load], the driver [run] and the
    accessor [get_execution_log], followed by the properties of the
    orchestration: what each call does to the execution log, to the
    configuration and to the logger, and which collaborators it calls.

    The collaborator classes imported by the module (CSVExtractor,
    APIExtractor, DataCleaner, DataValidator, DatabaseLoader), the YAML
    parser, the file system and the clock are not part of the file; they
    are taken as an interface ([Collaborators]) whose operations act on an
    abstract outside world and may raise. Collaborators receive values and
    return values: they do not reach back into the pipeline object, and
    they return what their contract says (records, a report, a count).
    An exception is an instance of [Exception], which the handlers
    [except Exception] of the module catch, or of a class that derives from
    [BaseException] only (KeyboardInterrupt, SystemExit), which they let
    through. Writing through [logger] does not raise. *)

From Stdlib Require Import ZArith Lia.
From stdpp Require Import base option list strings.

Set Warnings "-register-all".
Local Open Scope string_scope.
Local Open Scope list_scope.
Local Open Scope Z_scope.

(** * Part 1: the code *)

(** ** Python values used by the module *)

(** A raised exception, with its class name and [str(e)]. [Exn] is an
    instance of [Exception]; [BaseExn] is an instance of a class that
    derives from [BaseException] and not from [Exception]:
    KeyboardInterrupt, SystemExit, GeneratorExit. *)
Inductive exn : Type :=
| Exn (cls : string) (msg : string)
| BaseExn (cls : string) (msg : string).

Definition exn_class (e : exn) : string :=
  match e with Exn c _ | BaseExn c _ => c end.

Definition str (e : exn) : string :=
  match e with Exn _ m | BaseExn _ m => m end.

(** [isinstance(e, Exception)] *)
Definition is_Exception (e : exn) : bool :=
  match e with Exn _ _ => true | BaseExn _ _ => false end.

(** What [yaml.safe_load] can return. Mapping keys are strings. *)
Inductive yaml : Type :=
| YNull
| YBool (b : bool)
| YInt (z : Z)
| YStr (s : string)
| YSeq (l : list yaml)
| YMap (m : list (string * yaml)).

(** A Python [dict] with string keys: insertion ordered, keys unique. *)
Definition dict (V : Type) : Type := list (string * V).

Fixpoint dict_get {V} (k : string) (d : dict V) : option V :=
  match d with
  | [] => None
  | (k', v) :: d' => if decide (k = k') then Some v else dict_get k d'
  end.

(** [d[k] = v]: overwrite in place when the key is there, else add last. *)
Fixpoint dict_set {V} (k : string) (v : V) (d : dict V) : dict V :=
  match d with
  | [] => [(k, v)]
  | (k', v') :: d' =>
      if decide (k = k') then (k, v) :: d' else (k', v') :: dict_set k v d'
  end.

Definition keys {V} (d : dict V) : list string := d.*1.
Definition values {V} (d : dict V) : list V := d.*2.

(** Values stored in an execution-log entry. *)
Inductive pyval : Type :=
| PStr (s : string)
| PInt (z : Z)
| PDatetime (t : Z).

#[global] Instance pyval_eq_dec : EqDecision pyval.
Proof. solve_decision. Defined.

(** An entry of [self.execution_log] is a dict literal. *)
Definition Entry : Type := dict pyval.

(** Records written through [logger]. The text of each message is kept as
    a constructor carrying the values interpolated in the f-string. *)
Inductive level : Type := INFO | ERROR.

Inductive message : Type :=
| MsgInicializado                       (* "Pipeline ETL inicializado" *)
| MsgFaseExtracao                       (* "=== INICIANDO FASE DE EXTRAÇÃO ===" *)
| MsgExtraindoCSV                       (* "Extraindo dados de CSV..." *)
| MsgCSVExtraido (n : Z)                (* "✅ CSV extraído: {n} registros" *)
| MsgExtraindoAPI                       (* "Extraindo dados de API..." *)
| MsgAPIExtraida (n : Z)                (* "✅ API extraída: {n} registros" *)
| MsgErroExtracao (m : string)          (* "❌ Erro na extração: {m}" *)
| MsgFaseTransformacao                  (* "=== INICIANDO FASE DE TRANSFORMAÇÃO ===" *)
| MsgTransformando (source : string)    (* "Transformando dados de {source}..." *)
| MsgAplicandoLimpeza                   (* "Aplicando limpeza de dados..." *)
| MsgDadosLimpos (n : Z)                (* "✅ Dados limpos: {n} registros" *)
| MsgValidando                          (* "Validando dados..." *)
| MsgValidacaoConcluida (v : pyval)     (* "✅ Validação concluída: {v} registros válidos" *)
| MsgErroTransformacao (m : string)     (* "❌ Erro na transformação: {m}" *)
| MsgFaseCarga                          (* "=== INICIANDO FASE DE CARGA ===" *)
| MsgCarregando (source : string)       (* "Carregando dados de {source}..." *)
| MsgCarregados (n : Z) (source : string) (* "✅ {n} registros carregados de {source}" *)
| MsgCargaConcluida (n : Z)             (* "✅ CARGA CONCLUÍDA: {n} registros totais" *)
| MsgErroCarga (m : string)             (* "❌ Erro na carga: {m}" *)
| MsgSeparador                          (* "="*50 *)
| MsgIniciandoPipeline                  (* "INICIANDO PIPELINE ETL" *)
| MsgPipelineConcluido                  (* "✅ PIPELINE CONCLUÍDO COM SUCESSO" *)
| MsgTempoExecucao (start_time end_time : Z)
                                        (* "⏱️  Tempo de execução: {duration:.2f} segundos",
                                           duration = end_time - start_time *)
| MsgPipelineFalhou (m : string).       (* "❌ PIPELINE FALHOU: {m}" *)

Definition LogRecord : Type := level * message.

(** Calls made on the collaborators, in the order they happen. *)
Inductive call_event : Type :=
| OpenConfig | SafeLoad
| NewCSVExtractor | CSVExtract
| NewAPIExtractor | APIExtract
| NewDataCleaner | Clean
| NewDataValidator | Validate
| NewDatabaseLoader | LoaderLoad.

(** ** The collaborators *)

(** The report returned by [DataValidator.validate] is a dict. *)
Definition Report : Type := dict pyval.

(** Modelled from the spec: the collaborator classes are imported by the
    module and are not in the file. Their operations have the signatures
    of the contracts: an extractor is built from one configuration value
    and returns records, the cleaner returns records, the validator
    returns records and a report, the loader is built from the database
    block and returns a count. Each call acts on the world and may raise. *)
Class Collaborators : Type := {
  World : Type;
  Row : Type;
  (* datetime.now(), in microseconds *)
  clock : World -> Z * World;
  (* open(path, 'r') and the read of the stream *)
  open_read : string -> World -> (exn + string) * World;
  (* yaml.safe_load *)
  safe_load : string -> exn + yaml;
  CSVExtractor : Type;
  CSVExtractor_new : yaml -> World -> (exn + CSVExtractor) * World;
  CSVExtractor_extract : CSVExtractor -> World -> (exn + list Row) * World;
  APIExtractor : Type;
  APIExtractor_new : yaml -> World -> (exn + APIExtractor) * World;
  APIExtractor_extract : APIExtractor -> World -> (exn + list Row) * World;
  DataCleaner : Type;
  DataCleaner_new : World -> (exn + DataCleaner) * World;
  DataCleaner_clean : DataCleaner -> list Row -> World -> (exn + list Row) * World;
  DataValidator : Type;
  DataValidator_new : World -> (exn + DataValidator) * World;
  DataValidator_validate :
    DataValidator -> list Row -> World -> (exn + (list Row * Report)) * World;
  DatabaseLoader : Type;
  DatabaseLoader_new : yaml -> World -> (exn + DatabaseLoader) * World;
  DatabaseLoader_load :
    DatabaseLoader -> list Row -> string -> World -> (exn + Z) * World
}.

(** ** State and the monad of Python code: state with exceptions *)

Definition M (S A : Type) : Type := S -> (exn + A) * S.

Definition ret {S A} (a : A) : M S A := fun s => (inr a, s).

Definition raise {S A} (e : exn) : M S A := fun s => (inl e, s).

Definition bind {S A B} (m : M S A) (k : A -> M S B) : M S B :=
  fun s =>
    match m s with
    | (inr a, s') => k a s'
    | (inl e, s') => (inl e, s')
    end.

(** [try: m except Exception as e: h e]. The handler runs for an
    instance of [Exception]; any other exception leaves the statement as
    it was raised. *)
Definition try_except {S A} (m : M S A) (h : exn -> M S A) : M S A :=
  fun s =>
    match m s with
    | (inr a, s') => (inr a, s')
    | (inl e, s') => if is_Exception e then h e s' else (inl e, s')
    end.

Declare Scope py_scope.
Delimit Scope py_scope with py.
Notation "x <- m ;; k" := (bind m (fun x => k))
  (at level 100, m at next level, right associativity) : py_scope.
Notation "m ;; k" := (bind m (fun _ => k))
  (at level 100, right associativity) : py_scope.
Local Open Scope py_scope.

Section Pipeline.
Context `{C : Collaborators}.

Definition DataFrame : Type := list Row.

(** [len(df)] *)
Definition len (df : DataFrame) : Z := Z.of_nat (length df).

(** [sum(len(df) for df in d.values())] *)
Definition sum_len (d : dict DataFrame) : Z :=
  foldl (fun acc df => acc + len df) 0 (values d).

(** Everything outside the pipeline object: the world the collaborators
    act on, what was written through [logger], and the collaborator calls
    made so far. *)
Record Host : Type := mkHost {
  world : World;
  logged : list LogRecord;
  calls : list call_event
}.

(** The instance attributes set by [__init__]. *)
Record ETLPipeline : Type := mkPipeline {
  config : yaml;
  execution_log : list Entry
}.

Record Proc : Type := mkProc {
  self : ETLPipeline;
  host : Host
}.

(** *** Primitive actions *)

Definition call {A} (ev : call_event) (f : World -> (exn + A) * World)
  : M Host A :=
  fun h =>
    let (r, w) := f (world h) in
    (r, mkHost w (logged h) (calls h ++ [ev])).

Definition now : M Host Z :=
  fun h => let (t, w) := clock (world h) in (inr t, mkHost w (logged h) (calls h)).

Definition logger_info (m : message) : M Host unit :=
  fun h => (inr tt, mkHost (world h) (logged h ++ [(INFO, m)]) (calls h)).

Definition logger_error (m : message) : M Host unit :=
  fun h => (inr tt, mkHost (world h) (logged h ++ [(ERROR, m)]) (calls h)).

(** Code of a method: acts on the host and on [self]. *)
Definition io {A} (m : M Host A) : M Proc A :=
  fun p => let (r, h) := m (host p) in (r, mkProc (self p) h).

Definition self_config : M Proc yaml :=
  fun p => (inr (config (self p)), p).

(** [self.execution_log.append(e)] *)
Definition execution_log_append (e : Entry) : M Proc unit :=
  fun p =>
    (inr tt,
     mkProc (mkPipeline (config (self p)) (execution_log (self p) ++ [e]))
            (host p)).

Definition type_name (y : yaml) : string :=
  match y with
  | YNull => "NoneType"
  | YBool _ => "bool"
  | YInt _ => "int"
  | YStr _ => "str"
  | YSeq _ => "list"
  | YMap _ => "dict"
  end.

(** [cfg.get(k)]: only a dict has the method; a missing key gives None. *)
Definition yaml_get {S} (cfg : yaml) (k : string) : M S yaml :=
  match cfg with
  | YMap m => ret (default YNull (dict_get k m))
  | _ => raise (Exn "AttributeError"
                  ("'" +:+ type_name cfg +:+ "' object has no attribute 'get'"))
  end.

(** [cfg[k]] *)
Definition yaml_getitem {S} (cfg : yaml) (k : string) : M S yaml :=
  match cfg with
  | YMap m =>
      match dict_get k m with
      | Some v => ret v
      | None => raise (Exn "KeyError" ("'" +:+ k +:+ "'"))
      end
  | YStr _ => raise (Exn "TypeError"
                        "string indices must be integers, not 'str'")
  | YSeq _ => raise (Exn "TypeError"
                        "list indices must be integers or slices, not str")
  | _ => raise (Exn "TypeError"
                  ("'" +:+ type_name cfg +:+ "' object is not subscriptable"))
  end.

(** *** The log entries built by the phases *)

Definition success_entry (fase : string) (t : Z) (n : Z) : Entry :=
  [("fase", PStr fase); ("status", PStr "success");
   ("timestamp", PDatetime t); ("records", PInt n)].

Definition error_entry (fase : string) (t : Z) (e : exn) : Entry :=
  [("fase", PStr fase); ("status", PStr "error");
   ("timestamp", PDatetime t); ("error", PStr (str e))].

(** *** __init__ and _load_config *)

Definition open_ (path : string) : M Host string :=
  call OpenConfig (open_read path).

Definition yaml_safe_load (text : string) : M Host yaml :=
  call SafeLoad (fun w => (safe_load text, w)).

Definition _load_config (config_path : string) : M Host yaml :=
  f <- open_ config_path ;;
  config <- yaml_safe_load f ;;
  ret config.

Definition __init__ (config_path : string) : M Host ETLPipeline :=
  cfg <- _load_config config_path ;;
  let self := mkPipeline cfg [] in
  logger_info MsgInicializado ;;
  ret self.

(** *** extract *)

Definition extract (sources : list string) : M Proc (dict DataFrame) :=
  io (logger_info MsgFaseExtracao) ;;
  let extracted_data : dict DataFrame := [] in
  try_except
    (extracted_data <-
       (if decide ("csv" ∈ sources) then
          io (logger_info MsgExtraindoCSV) ;;
          cfg <- self_config ;;
          csv_path <- yaml_get cfg "csv_path" ;;
          csv_extractor <- io (call NewCSVExtractor (CSVExtractor_new csv_path)) ;;
          df <- io (call CSVExtract (CSVExtractor_extract csv_extractor)) ;;
          let extracted_data := dict_set "csv" df extracted_data in
          io (logger_info (MsgCSVExtraido (len df))) ;;
          ret extracted_data
        else ret extracted_data) ;;
     extracted_data <-
       (if decide ("api" ∈ sources) then
          io (logger_info MsgExtraindoAPI) ;;
          cfg <- self_config ;;
          api_url <- yaml_get cfg "api_url" ;;
          api_extractor <- io (call NewAPIExtractor (APIExtractor_new api_url)) ;;
          df <- io (call APIExtract (APIExtractor_extract api_extractor)) ;;
          let extracted_data := dict_set "api" df extracted_data in
          io (logger_info (MsgAPIExtraida (len df))) ;;
          ret extracted_data
        else ret extracted_data) ;;
     t <- io now ;;
     execution_log_append (success_entry "extract" t (sum_len extracted_data)) ;;
     ret extracted_data)
    (fun e =>
       io (logger_error (MsgErroExtracao (str e))) ;;
       t <- io now ;;
       execution_log_append (error_entry "extract" t e) ;;
       raise e).

(** *** transform *)

(** The body of [for source, df in data.items()], with the dict being
    filled as accumulator. *)
Fixpoint transform_loop (rules : list string) (items : dict DataFrame)
    (transformed_data : dict DataFrame) : M Proc (dict DataFrame) :=
  match items with
  | [] => ret transformed_data
  | (source, df) :: items' =>
      io (logger_info (MsgTransformando source)) ;;
      df <-
        (if decide ("clean" ∈ rules) then
           io (logger_info MsgAplicandoLimpeza) ;;
           cleaner <- io (call NewDataCleaner DataCleaner_new) ;;
           df <- io (call Clean (DataCleaner_clean cleaner df)) ;;
           io (logger_info (MsgDadosLimpos (len df))) ;;
           ret df
         else ret df) ;;
      df <-
        (if decide ("validate" ∈ rules) then
           io (logger_info MsgValidando) ;;
           validator <- io (call NewDataValidator DataValidator_new) ;;
           r <- io (call Validate (DataValidator_validate validator df)) ;;
           let '(df, validation_report) := r in
           match dict_get "valid_records" validation_report with
           | Some v =>
               io (logger_info (MsgValidacaoConcluida v)) ;;
               ret df
           | None => raise (Exn "KeyError" "'valid_records'")
           end
         else ret df) ;;
      transform_loop rules items' (dict_set source df transformed_data)
  end.

Definition transform (data : dict DataFrame) (rules : list string)
  : M Proc (dict DataFrame) :=
  io (logger_info MsgFaseTransformacao) ;;
  let transformed_data : dict DataFrame := [] in
  try_except
    (transformed_data <- transform_loop rules data transformed_data ;;
     t <- io now ;;
     execution_log_append
       (success_entry "transform" t (sum_len transformed_data)) ;;
     ret transformed_data)
    (fun e =>
       io (logger_error (MsgErroTransformacao (str e))) ;;
       t <- io now ;;
       execution_log_append (error_entry "transform" t e) ;;
       raise e).

(** *** load *)

Fixpoint load_loop (loader : DatabaseLoader) (mode : string)
    (items : dict DataFrame) (total_records : Z) : M Proc Z :=
  match items with
  | [] => ret total_records
  | (source, df) :: items' =>
      io (logger_info (MsgCarregando source)) ;;
      records_loaded <- io (call LoaderLoad (DatabaseLoader_load loader df mode)) ;;
      let total_records := total_records + records_loaded in
      io (logger_info (MsgCarregados records_loaded source)) ;;
      load_loop loader mode items' total_records
  end.

Definition load (data : dict DataFrame) (mode : string) : M Proc unit :=
  io (logger_info MsgFaseCarga) ;;
  try_except
    (cfg <- self_config ;;
     database <- yaml_getitem cfg "database" ;;
     loader <- io (call NewDatabaseLoader (DatabaseLoader_new database)) ;;
     total_records <- load_loop loader mode data 0 ;;
     io (logger_info (MsgCargaConcluida total_records)) ;;
     t <- io now ;;
     execution_log_append (success_entry "load" t total_records) ;;
     ret tt)
    (fun e =>
       io (logger_error (MsgErroCarga (str e))) ;;
       t <- io now ;;
       execution_log_append (error_entry "load" t e) ;;
       raise e).

(** *** run *)

Definition run (extract_sources transform_rules : list string)
    (load_mode : string) : M Proc unit :=
  start_time <- io now ;;
  io (logger_info MsgSeparador) ;;
  io (logger_info MsgIniciandoPipeline) ;;
  io (logger_info MsgSeparador) ;;
  try_except
    (extracted_data <- extract extract_sources ;;
     transformed_data <- transform extracted_data transform_rules ;;
     load transformed_data load_mode ;;
     end_time <- io now ;;
     io (logger_info MsgSeparador) ;;
     io (logger_info MsgPipelineConcluido) ;;
     io (logger_info (MsgTempoExecucao start_time end_time)) ;;
     io (logger_info MsgSeparador) ;;
     ret tt)
    (fun e =>
       io (logger_error MsgSeparador) ;;
       io (logger_error (MsgPipelineFalhou (str e))) ;;
       io (logger_error MsgSeparador) ;;
       raise e).

(** *** get_execution_log *)

Definition get_execution_log : M Proc (list Entry) :=
  fun p => (inr (execution_log (self p)), p).

End Pipeline.

(** * Part 1b: class SalesForecaster (05-ml-previsao-vendas/src/model_training.py)

    The constructor, [_initialize_model], [train], [predict], [save_model]
    and [load_model]. The estimators (scikit-learn, xgboost) and joblib are
    libraries: they are an interface whose operations act on the estimator
    and on an outside world and may raise. *)
Module SalesForecaster.

(** Records written through [logger], all at level INFO. *)
Inductive message : Type :=
| MsgTreinando (model_type : string)   (* "🚀 Treinando modelo {model_type}..." *)
| MsgTreinado                          (* "✅ Modelo treinado com sucesso" *)
| MsgSalvo (filepath : string)         (* "✅ Modelo salvo em {filepath}" *)
| MsgCarregado (filepath : string).    (* "✅ Modelo carregado de {filepath}" *)

Class Estimators : Type := {
  World : Type;
  (* an estimator object, with whatever it has learnt *)
  Model : Type;
  Features : Type;
  Target : Type;
  Predictions : Type;
  (* LinearRegression() *)
  LinearRegression : Model;
  (* RandomForestRegressor(n_estimators=100, max_depth=10, random_state=42,
     n_jobs=-1) *)
  RandomForestRegressor : Model;
  (* XGBRegressor(n_estimators=100, max_depth=6, learning_rate=0.1,
     random_state=42, n_jobs=-1) *)
  XGBRegressor : Model;
  (* model.fit(X, y): changes the estimator in place, also when it raises *)
  fit : Model -> Features -> Target -> World -> (exn + unit) * Model * World;
  (* model.predict(X) *)
  model_predict : Model -> Features -> World -> (exn + Predictions) * World;
  (* joblib.dump(model, filepath) *)
  joblib_dump : Model -> string -> World -> (exn + unit) * World;
  (* joblib.load(filepath) *)
  joblib_load : string -> World -> (exn + Model) * World
}.

Section Code.
Context `{E : Estimators}.

(** The instance attributes. *)
Record Forecaster : Type := mkForecaster {
  model_type : string;
  model : Model;
  is_trained : bool
}.

Record State : Type := mkState {
  self : Forecaster;
  world : World;
  logged : list message
}.

Definition logger_info (m : message) : M State unit :=
  fun s => (inr tt, mkState (self s) (world s) (logged s ++ [m])).

Definition set_is_trained (b : bool) : M State unit :=
  fun s =>
    (inr tt,
     mkState (mkForecaster (model_type (self s)) (model (self s)) b)
             (world s) (logged s)).

Definition set_model (m : Model) : M State unit :=
  fun s =>
    (inr tt,
     mkState (mkForecaster (model_type (self s)) m (is_trained (self s)))
             (world s) (logged s)).

(** The dict of the three estimators is built first; then the type is
    looked up in it. *)
Definition _initialize_model (model_type : string) : exn + Model :=
  let models : dict Model :=
    [("linear", LinearRegression);
     ("random_forest", RandomForestRegressor);
     ("xgboost", XGBRegressor)] in
  if decide (model_type ∈ keys models) then
    match dict_get model_type models with
    | Some m => inr m
    | None => inl (Exn "KeyError" ("'" +:+ model_type +:+ "'"))
    end
  else inl (Exn "ValueError" ("Modelo " +:+ model_type +:+ " não suportado")).

(** [SalesForecaster(model_type)]; the default of the argument is
    'xgboost'. *)
Definition __init__ (model_type : string) : exn + Forecaster :=
  match _initialize_model model_type with
  | inl e => inl e
  | inr m => inr (mkForecaster model_type m false)
  end.

Definition train (X_train : Features) (y_train : Target) : M State unit :=
  (fun s => logger_info (MsgTreinando (model_type (self s))) s) ;;
  (fun s =>
     let '(r, m, w) := fit (model (self s)) X_train y_train (world s) in
     (r, mkState (mkForecaster (model_type (self s)) m (is_trained (self s)))
                 w (logged s))) ;;
  set_is_trained true ;;
  logger_info MsgTreinado.

Definition predict (X : Features) : M State Predictions :=
  fun s =>
    if negb (is_trained (self s)) then
      raise (Exn "ValueError" "Modelo não treinado. Execute train() primeiro.") s
    else
      let (predictions, w) := model_predict (model (self s)) X (world s) in
      (predictions, mkState (self s) w (logged s)).

Definition save_model (filepath : string) : M State unit :=
  fun s =>
    if negb (is_trained (self s)) then
      raise (Exn "ValueError" "Modelo não treinado") s
    else
      ((fun s =>
          let (r, w) := joblib_dump (model (self s)) filepath (world s) in
          (r, mkState (self s) w (logged s))) ;;
       logger_info (MsgSalvo filepath)) s.

Definition load_model (filepath : string) : M State unit :=
  m <- (fun s =>
          let (r, w) := joblib_load filepath (world s) in
          (r, mkState (self s) w (logged s))) ;;
  set_model m ;;
  set_is_trained true ;;
  logger_info (MsgCarregado filepath).

(** The calls a client can make on a forecaster, and the state after a
    call, whether it returned or raised. *)
Inductive method : Type :=
| Train (X_train : Features) (y_train : Target)
| Predict (X : Features)
| SaveModel (filepath : string)
| LoadModel (filepath : string).

Definition returned {A} (r : (exn + A) * State) : bool :=
  match r.1 with inr _ => true | inl _ => false end.

Definition invoke (c : method) (s : State) : bool * State :=
  match c with
  | Train X y => (returned (train X y s), (train X y s).2)
  | Predict X => (returned (predict X s), (predict X s).2)
  | SaveModel f => (returned (save_model f s), (save_model f s).2)
  | LoadModel f => (returned (load_model f s), (load_model f s).2)
  end.

(** A call that trains: [train] or [load_model]. *)
Definition trains (c : method) : bool :=
  match c with
  | Train _ _ | LoadModel _ => true
  | Predict _ | SaveModel _ => false
  end.

(** Run the calls in turn; the result tells whether one of the training
    calls returned. *)
Fixpoint invoke_all (cs : list method) (s : State) : bool * State :=
  match cs with
  | [] => (false, s)
  | c :: cs' =>
      let (ok, s1) := invoke c s in
      let (later, s2) := invoke_all cs' s1 in
      ((trains c && ok) || later, s2)
  end.

End Code.

End SalesForecaster.

(** A small world for the forecaster: an estimator is the list of what it
    has learnt, fitting needs as many targets as rows, a prediction adds
    the first learnt value, and the files are a dict from path to
    estimator. *)
Module ForecasterDemo.

Definition demo_fit (m : list Z) (X y : list Z) (w : dict (list Z))
  : (exn + unit) * list Z * dict (list Z) :=
  if decide (length X = length y) then (inr tt, y, w)
  else (inl (Exn "ValueError" "inconsistent numbers of samples"), m, w).

Definition demo_predict (m : list Z) (X : list Z) (w : dict (list Z))
  : (exn + list Z) * dict (list Z) :=
  (inr ((fun x => x + hd 0 m) <$> X), w).

Definition demo_dump (m : list Z) (filepath : string) (w : dict (list Z))
  : (exn + unit) * dict (list Z) :=
  (inr tt, dict_set filepath m w).

Definition demo_load (filepath : string) (w : dict (list Z))
  : (exn + list Z) * dict (list Z) :=
  match dict_get filepath w with
  | Some m => (inr m, w)
  | None => (inl (Exn "FileNotFoundError" filepath), w)
  end.

#[local] Instance estimators : SalesForecaster.Estimators := {|
  SalesForecaster.World := dict (list Z);
  SalesForecaster.Model := list Z;
  SalesForecaster.Features := list Z;
  SalesForecaster.Target := list Z;
  SalesForecaster.Predictions := list Z;
  SalesForecaster.LinearRegression := [];
  SalesForecaster.RandomForestRegressor := [];
  SalesForecaster.XGBRegressor := [];
  SalesForecaster.fit := demo_fit;
  SalesForecaster.model_predict := demo_predict;
  SalesForecaster.joblib_dump := demo_dump;
  SalesForecaster.joblib_load := demo_load
|}.

(** A forecaster just built with the default type, nothing logged, no
    file. *)
Definition fresh : SalesForecaster.State :=
  SalesForecaster.mkState
    (SalesForecaster.mkForecaster "xgboost" [] false) [] [].

End ForecasterDemo.

(** * Part 2: the vocabulary of the properties *)

(** ** Logger records, log entries, collaborator calls *)

Definition is_duration (r : LogRecord) : bool :=
  match r with
  | (_, MsgTempoExecucao _ _) => true
  | _ => false
  end.

(** The phases, in the order [run] goes through them. *)
Inductive phase : Type := PExtract | PTransform | PLoad.

Definition phase_name (P : phase) : string :=
  match P with
  | PExtract => "extract"
  | PTransform => "transform"
  | PLoad => "load"
  end.

Definition phase_index (P : phase) : nat :=
  match P with
  | PExtract => 0
  | PTransform => 1
  | PLoad => 2
  end.

(** The entries of a log that belong to a phase. *)
Definition entries_of (fase : string) (l : list Entry) : list Entry :=
  filter (fun en => dict_get "fase" en = Some (PStr fase)) l.

(** An entry that records a success of phase [fase] with [n] records: it
    has the phase name, the status "success", a timestamp and the record
    count, and no error text. *)
Definition is_success_entry (fase : string) (n : Z) (en : Entry) : Prop :=
  dict_get "fase" en = Some (PStr fase) /\
  dict_get "status" en = Some (PStr "success") /\
  dict_get "records" en = Some (PInt n) /\
  dict_get "error" en = None /\
  exists t, dict_get "timestamp" en = Some (PDatetime t).

(** An entry that records a failure of phase [fase]: it has the phase
    name, the status "error", a timestamp and the text [msg] of the
    exception, and no record count. *)
Definition is_error_entry (fase : string) (msg : string) (en : Entry) : Prop :=
  dict_get "fase" en = Some (PStr fase) /\
  dict_get "status" en = Some (PStr "error") /\
  dict_get "error" en = Some (PStr msg) /\
  dict_get "records" en = None /\
  exists t, dict_get "timestamp" en = Some (PDatetime t).

(** The logger records that carry the execution time. *)
Definition duration_records (l : list LogRecord) : list LogRecord :=
  filter (fun r => is_duration r = true) l.

Definition recognized_sources : list string := ["csv"; "api"].

Definition is_csv_call (ev : call_event) : bool :=
  match ev with NewCSVExtractor | CSVExtract => true | _ => false end.

Definition is_api_call (ev : call_event) : bool :=
  match ev with NewAPIExtractor | APIExtract => true | _ => false end.

Definition no_call (ev : call_event) : bool := false.

(** Reading the configuration file. *)
Definition is_config_load (ev : call_event) : bool :=
  match ev with OpenConfig | SafeLoad => true | _ => false end.

Definition not_config_load (ev : call_event) : bool := negb (is_config_load ev).

(** ** The rules of transform *)

(** The rules the orchestrator knows, in the order of their priority. *)
Definition rule_priority : list string := ["clean"; "validate"].

(** The rules that are applied for a list of rule identifiers: the known
    ones among them, by priority. *)
Definition requested_rules (rules : list string) : list string :=
  filter (fun r => r ∈ rules) rule_priority.

(** The collaborator calls that applying a rule makes. *)
Definition rule_calls (rule : string) : list call_event :=
  if decide (rule = "clean") then [NewDataCleaner; Clean]
  else if decide (rule = "validate") then [NewDataValidator; Validate]
  else [].

(** The collaborator calls of a transformation of [n] sources that returns:
    for each source in turn, the calls of the requested rules by priority. *)
Definition transform_calls (rules : list string) (n : nat) : list call_event :=
  concat (replicate n (concat (rule_calls <$> requested_rules rules))).

Section Vocabulary.
Context `{C : Collaborators}.

(** ** What a piece of code does to the logger, to [self], to the log *)

(** [logged_ext p p']: between [p] and [p'] the logger received records, none
    of them the execution-time line of [run]. *)
Definition logged_ext (p p' : Proc) : Prop :=
  exists new, logged (host p') = logged (host p) ++ new /\
              Forall (fun r => is_duration r = false) new.

(** A piece of code is quiet when it leaves [self] alone and does not log
    the execution time: everything a phase does before it records its
    outcome. *)
Definition quiet {A} (m : M Proc A) : Prop :=
  forall p, self (m p).2 = self p /\ logged_ext p (m p).2.

(** What the guarded block of a phase does: on a normal return it has
    appended the success entry, on a raise it has not touched [self]. *)
Definition body_post {A} (fase : string) (count_ok : A -> Z -> Prop)
    (p : Proc) (r : exn + A) (p' : Proc) : Prop :=
  logged_ext p p' /\
  match r with
  | inr a =>
      config (self p') = config (self p) /\
      exists t n,
        execution_log (self p') =
          execution_log (self p) ++ [success_entry fase t n] /\
        count_ok a n
  | inl e => self p' = self p
  end.

Definition records_outcome {A} (fase : string) (count_ok : A -> Z -> Prop)
    (m : M Proc A) : Prop :=
  forall p, body_post fase count_ok p (m p).1 (m p).2.

(** What a whole phase call does. *)
Definition phase_post {A} (fase : string) (count_ok : A -> Z -> Prop)
    (p : Proc) (r : exn + A) (p' : Proc) : Prop :=
  config (self p') = config (self p) /\
  logged_ext p p' /\
  match r with
  | inr a =>
      exists t n,
        execution_log (self p') =
          execution_log (self p) ++ [success_entry fase t n] /\
        count_ok a n
  | inl e =>
      if is_Exception e then
        exists t,
          execution_log (self p') =
            execution_log (self p) ++ [error_entry fase t e]
      else execution_log (self p') = execution_log (self p)
  end.

(** The outcomes a phase records: a return, or an exception that its
    handler catches. *)
Definition recorded {A} (r : exn + A) : bool :=
  match r with
  | inr _ => true
  | inl e => is_Exception e
  end.

(** The entry for an outcome of phase [fase]: a success entry when the
    call returned, an error entry with the text of the exception when it
    raised; a record count exactly on success, an error text exactly on
    error. *)
Definition entry_of_outcome {A} (fase : string) (r : exn + A) (en : Entry)
  : Prop :=
  dict_get "fase" en = Some (PStr fase) /\
  match r with
  | inr _ => dict_get "status" en = Some (PStr "success")
  | inl e => dict_get "status" en = Some (PStr "error") /\
             dict_get "error" en = Some (PStr (str e))
  end /\
  (is_Some (dict_get "records" en) <->
     dict_get "status" en = Some (PStr "success")) /\
  (is_Some (dict_get "error" en) <->
     dict_get "status" en = Some (PStr "error")).

(** [m] appends exactly one entry, the one for its outcome, when it
    returns or raises an instance of [Exception]; it appends nothing when
    it is left by an exception that is not one. What was in the log stays
    in front, unchanged. *)
Definition appends_one_entry {A} (fase : string) (m : M Proc A) : Prop :=
  forall p,
    if recorded (m p).1 then
      exists en,
        execution_log (self (m p).2) = execution_log (self p) ++ [en] /\
        entry_of_outcome fase (m p).1 en
    else execution_log (self (m p).2) = execution_log (self p).

(** Modelled from the spec: the class DatabaseLoader is not in the file;
    by its contract [load(records, mode)] returns the count of the records
    written, a number that is not negative. *)
Definition loader_returns_counts : Prop :=
  forall l df mode w n w',
    DatabaseLoader_load l df mode w = (inr n, w') -> 0 <= n.

(** ** The course of [run] *)

(** The state in which [run] enters its guarded block, with [start_time]. *)
Definition run_entry (p : Proc) : Z * Proc :=
  let (start_time, w) := clock (world (host p)) in
  (start_time,
   mkProc (self p)
     (mkHost w
        (logged (host p) ++
           [(INFO, MsgSeparador); (INFO, MsgIniciandoPipeline);
            (INFO, MsgSeparador)])
        (calls (host p)))).

(** The state [run] is left in when a phase raised [e] in state [q]: the
    handler adds its three lines for an instance of [Exception], and
    nothing is added for another exception. *)
Definition run_failed (e : exn) (q : Proc) : Proc :=
  if is_Exception e then
    mkProc (self q)
      (mkHost (world (host q))
         (logged (host q) ++
            [(ERROR, MsgSeparador); (ERROR, MsgPipelineFalhou (str e));
             (ERROR, MsgSeparador)])
         (calls (host q)))
  else q.

(** What [run] adds after the three phases returned. *)
Definition run_done (start_time : Z) (q : Proc) : Proc :=
  let (end_time, w) := clock (world (host q)) in
  mkProc (self q)
    (mkHost w
       (logged (host q) ++
          [(INFO, MsgSeparador); (INFO, MsgPipelineConcluido);
           (INFO, MsgTempoExecucao start_time end_time);
           (INFO, MsgSeparador)])
       (calls (host q))).

(** [run] fails during phase [P] with exception [e]: the phases before [P]
    returned and the call of [P] raised [e]. *)
Definition fails_during (P : phase) (sources rules : list string)
    (mode : string) (p : Proc) (e : exn) : Prop :=
  let p0 := (run_entry p).2 in
  match P with
  | PExtract => exists p1, extract sources p0 = (inl e, p1)
  | PTransform =>
      exists d p1 p2,
        extract sources p0 = (inr d, p1) /\
        transform d rules p1 = (inl e, p2)
  | PLoad =>
      exists d p1 d' p2 p3,
        extract sources p0 = (inr d, p1) /\
        transform d rules p1 = (inr d', p2) /\
        load d' mode p2 = (inl e, p3)
  end.

(** ** Collaborator calls *)

(** [m] calls only collaborators in [allowed]. *)
Definition calls_only (allowed : call_event -> bool) {A} (m : M Proc A) : Prop :=
  forall p, exists cs,
    calls (host (m p).2) = calls (host p) ++ cs /\
    Forall (fun ev => allowed ev = true) cs.

(** [m] first calls collaborators in [a] only, then in [b] only. *)
Definition calls_seq (a b : call_event -> bool) {A} (m : M Proc A) : Prop :=
  forall p, exists c1 c2,
    calls (host (m p).2) = calls (host p) ++ c1 ++ c2 /\
    Forall (fun ev => a ev = true) c1 /\
    Forall (fun ev => b ev = true) c2.

(** Reading one source: the configuration lookup and the two calls on the
    extractor class. *)
Definition read_csv : M Proc DataFrame :=
  cfg <- self_config ;;
  csv_path <- yaml_get cfg "csv_path" ;;
  csv_extractor <- io (call NewCSVExtractor (CSVExtractor_new csv_path)) ;;
  io (call CSVExtract (CSVExtractor_extract csv_extractor)).

Definition read_api : M Proc DataFrame :=
  cfg <- self_config ;;
  api_url <- yaml_get cfg "api_url" ;;
  api_extractor <- io (call NewAPIExtractor (APIExtractor_new api_url)) ;;
  io (call APIExtract (APIExtractor_extract api_extractor)).

(** The total number of records of a mapping: the records of all its
    sources, counted together. *)
Definition records_in (d : dict DataFrame) : Z :=
  Z.of_nat (length (concat (values d))).

(** ** extract, as the specification words it *)

(** The records of a recognized source: the extractor of the source is
    built from the configured location (None when the configuration has
    no such key) and its [extract] is called. *)
Definition source_records (source : string) (cfg : dict yaml) (w : World)
  : (exn + DataFrame) * World :=
  if decide (source = "csv") then
    match CSVExtractor_new (default YNull (dict_get "csv_path" cfg)) w with
    | (inl e, w') => (inl e, w')
    | (inr extractor, w') => CSVExtractor_extract extractor w'
    end
  else
    match APIExtractor_new (default YNull (dict_get "api_url" cfg)) w with
    | (inl e, w') => (inl e, w')
    | (inr extractor, w') => APIExtractor_extract extractor w'
    end.

(** Reading sources one after the other, each in the world the one before
    left, and storing the records of each under its name; the first
    failure ends the reading. *)
Fixpoint read_sources (srcs : list string) (cfg : dict yaml) (w : World)
  : (exn + dict DataFrame) * World :=
  match srcs with
  | [] => (inr [], w)
  | source :: srcs' =>
      match source_records source cfg w with
      | (inl e, w') => (inl e, w')
      | (inr df, w') =>
          match read_sources srcs' cfg w' with
          | (inl e, w'') => (inl e, w'')
          | (inr d, w'') => (inr ((source, df) :: d), w'')
          end
      end
  end.

(** ** The life of a pipeline object *)

(** The calls a client can make on a pipeline object. *)
Inductive api_call : Type :=
| CallExtract (sources : list string)
| CallTransform (data : dict DataFrame) (rules : list string)
| CallLoad (data : dict DataFrame) (mode : string)
| CallRun (sources rules : list string) (mode : string)
| CallGetExecutionLog.

(** The state after a call, whether it returned or raised. *)
Definition after (c : api_call) (p : Proc) : Proc :=
  match c with
  | CallExtract sources => (extract sources p).2
  | CallTransform data rules => (transform data rules p).2
  | CallLoad data mode => (load data mode p).2
  | CallRun sources rules mode => (run sources rules mode p).2
  | CallGetExecutionLog => (get_execution_log p).2
  end.

Definition after_all (cs : list api_call) (p : Proc) : Proc :=
  foldl (fun q c => after c q) p cs.

Definition is_phase_call (c : api_call) : bool :=
  match c with
  | CallExtract _ | CallTransform _ _ | CallLoad _ _ | CallRun _ _ _ => true
  | CallGetExecutionLog => false
  end.

(** The sequence a call of [get_execution_log] returns. *)
Definition snapshot (p : Proc) : list Entry :=
  match (get_execution_log p).1 with
  | inr l => l
  | inl _ => []
  end.

(** ** transform, as the specification words it *)

(** "clean" delegates to a cleaner, which returns a new record set. *)
Definition clean_rule (df : DataFrame) : M Proc DataFrame :=
  io (logger_info MsgAplicandoLimpeza) ;;
  cleaner <- io (call NewDataCleaner DataCleaner_new) ;;
  df <- io (call Clean (DataCleaner_clean cleaner df)) ;;
  io (logger_info (MsgDadosLimpos (len df))) ;;
  ret df.

(** "validate" delegates to a validator, which returns the records that
    remain and a report; the report's count of valid records is logged
    (a report without it makes that line raise KeyError). *)
Definition validate_rule (df : DataFrame) : M Proc DataFrame :=
  io (logger_info MsgValidando) ;;
  validator <- io (call NewDataValidator DataValidator_new) ;;
  r <- io (call Validate (DataValidator_validate validator df)) ;;
  let '(df, validation_report) := r in
  match dict_get "valid_records" validation_report with
  | Some v =>
      io (logger_info (MsgValidacaoConcluida v)) ;;
      ret df
  | None => raise (Exn "KeyError" "'valid_records'")
  end.

Definition apply_rule (rule : string) (df : DataFrame) : M Proc DataFrame :=
  if decide (rule = "clean") then clean_rule df
  else if decide (rule = "validate") then validate_rule df
  else ret df.

(** Apply a sequence of rules one after the other, each to the result of
    the one before. *)
Fixpoint apply_rules (rs : list string) (df : DataFrame) : M Proc DataFrame :=
  match rs with
  | [] => ret df
  | r :: rs' => df' <- apply_rule r df ;; apply_rules rs' df'
  end.

(** transform as the specification words it: for each source of [data],
    in turn, apply the requested rules by priority and store the result
    under the name of the source. *)
Fixpoint transform_sources (rules : list string) (items : dict DataFrame)
    (transformed_data : dict DataFrame) : M Proc (dict DataFrame) :=
  match items with
  | [] => ret transformed_data
  | (source, df) :: items' =>
      io (logger_info (MsgTransformando source)) ;;
      df' <- apply_rules (requested_rules rules) df ;;
      transform_sources rules items' (dict_set source df' transformed_data)
  end.

(** On failure an error entry for phase "transform" and the exception
    again; on success a success entry with the summed count of the output
    records. *)
Definition transform_spec (data : dict DataFrame) (rules : list string)
  : M Proc (dict DataFrame) :=
  io (logger_info MsgFaseTransformacao) ;;
  try_except
    (transformed_data <- transform_sources rules data [] ;;
     t <- io now ;;
     execution_log_append
       (success_entry "transform" t (sum_len transformed_data)) ;;
     ret transformed_data)
    (fun e =>
       io (logger_error (MsgErroTransformacao (str e))) ;;
       t <- io now ;;
       execution_log_append (error_entry "transform" t e) ;;
       raise e).

End Vocabulary.

(** ** Further vocabulary: the collaborator calls of each phase *)

(** The recognized sources among the requested ones, in the order
    [extract] reads them. *)
Definition requested_sources (sources : list string) : list string :=
  filter (fun k => k ∈ sources) recognized_sources.

(** The collaborator calls that reading a source makes. *)
Definition source_calls (source : string) : list call_event :=
  if decide (source = "csv") then [NewCSVExtractor; CSVExtract]
  else if decide (source = "api") then [NewAPIExtractor; APIExtract]
  else [].

Definition extract_calls (sources : list string) : list call_event :=
  concat (source_calls <$> requested_sources sources).

(** One loader, then one call of its [load] per source. *)
Definition load_calls (n : nat) : list call_event :=
  NewDatabaseLoader :: replicate n LoaderLoad.

(** The phase a collaborator call belongs to. *)
Definition phase_of_call (ev : call_event) : option phase :=
  match ev with
  | NewCSVExtractor | CSVExtract | NewAPIExtractor | APIExtract => Some PExtract
  | NewDataCleaner | Clean | NewDataValidator | Validate => Some PTransform
  | NewDatabaseLoader | LoaderLoad => Some PLoad
  | OpenConfig | SafeLoad => None
  end.

Definition is_call_of (P : phase) (ev : call_event) : bool :=
  match phase_of_call ev with
  | Some Q => bool_decide (phase_index Q = phase_index P)
  | None => false
  end.

Definition is_call_upto (P : phase) (ev : call_event) : bool :=
  match phase_of_call ev with
  | Some Q => bool_decide (phase_index Q <= phase_index P)%nat
  | None => false
  end.

Definition is_info (r : LogRecord) : bool :=
  match r.1 with INFO => true | ERROR => false end.

(** The database block of a configuration, when it is a mapping that has
    one: what [self.config['database']] evaluates to. *)
Definition database_block (cfg : yaml) : option yaml :=
  match cfg with
  | YMap m => dict_get "database" m
  | _ => None
  end.

Section VocabularyOfCalls.
Context `{C : Collaborators}.

(** The state after one more logger record. *)
Definition log_line (lv : level) (m : message) (p : Proc) : Proc :=
  mkProc (self p)
    (mkHost (world (host p)) (logged (host p) ++ [(lv, m)]) (calls (host p))).

(** [m] writes through the logger only records in [allowed]. *)
Definition logs_only (allowed : LogRecord -> bool) {A} (m : M Proc A) : Prop :=
  forall p, exists new,
    logged (host (m p).2) = logged (host p) ++ new /\
    Forall (fun r => allowed r = true) new.

(** [m] logs at level INFO while it works and, when it raises an instance
    of [Exception], ends with one ERROR record that carries the text of
    the exception; when it is left by another exception it has logged at
    level INFO only. *)
Definition reports_failure {A} (msg : string -> message) (m : M Proc A) : Prop :=
  forall p, exists new,
    logged (host (m p).2) = logged (host p) ++ new /\
    match (m p).1 with
    | inr _ => Forall (fun r => is_info r = true) new
    | inl e =>
        if is_Exception e then
          exists pre,
            new = pre ++ [(ERROR, msg (str e))] /\
            Forall (fun r => is_info r = true) pre
        else Forall (fun r => is_info r = true) new
    end.

(** The counts the loader returns when its [load] is called on each
    record set in turn, each call starting from the world the one before
    left; an exception when one of the calls raises. *)
Fixpoint loader_counts (loader : DatabaseLoader) (mode : string)
    (dfs : list DataFrame) (w : World) : exn + list Z :=
  match dfs with
  | [] => inr []
  | df :: dfs' =>
      match DatabaseLoader_load loader df mode w with
      | (inl e, _) => inl e
      | (inr n, w') =>
          match loader_counts loader mode dfs' w' with
          | inl e => inl e
          | inr ns => inr (n :: ns)
          end
      end
  end.

End VocabularyOfCalls.

(** ** A concrete set of collaborators

    A small world to run the pipeline on: a file system, CSV files, an API
    that may be down or interrupted, and a database that stores the rows
    it is given. Rows are optional integers ([None] is a row with a
    null). *)
Module Demo.

(** The API answers with rows, or it is down, or the user interrupts the
    program (Ctrl-C) while the request is pending. *)
Inductive api_state : Type :=
| ApiUp (rows : list (option Z))
| ApiDown
| ApiInterrupted.

Record world : Type := mkWorld {
  w_time : Z;
  w_files : dict string;
  w_csv : dict (list (option Z));
  w_api : api_state;
  w_db : list (option Z)
}.

(** A configuration document with the three keys the phases read. *)
Definition full_text : string :=
  "{csv_path: vendas.csv, api_url: http://api/vendas, database: {host: localhost}}".

(** The documents the toy parser knows, with what PyYAML gives on them;
    on any other text it raises, with the first line of the message PyYAML
    has for the text of config/bad.yaml below. *)
Definition documents : dict yaml :=
  [("", YNull);
   ("{}", YMap []);
   ("csv_path: vendas.csv", YMap [("csv_path", YStr "vendas.csv")]);
   (full_text,
    YMap [("csv_path", YStr "vendas.csv");
          ("api_url", YStr "http://api/vendas");
          ("database", YMap [("host", YStr "localhost")])])].

Definition parse (text : string) : exn + yaml :=
  match dict_get text documents with
  | Some y => inr y
  | None => inl (Exn "ScannerError" "mapping values are not allowed here")
  end.

Definition tick (w : world) : Z * world :=
  (w_time w, mkWorld (w_time w + 1) (w_files w) (w_csv w) (w_api w) (w_db w)).

Definition read (path : string) (w : world) : (exn + string) * world :=
  match dict_get path (w_files w) with
  | Some text => (inr text, w)
  | None =>
      (inl (Exn "FileNotFoundError"
              ("[Errno 2] No such file or directory: '" +:+ path +:+ "'")),
       w)
  end.

Definition new_with_str (v : yaml) (w : world) : (exn + string) * world :=
  match v with
  | YStr s => (inr s, w)
  | _ => (inl (Exn "TypeError" "expected str"), w)
  end.

Definition csv_extract (path : string) (w : world)
  : (exn + list (option Z)) * world :=
  match dict_get path (w_csv w) with
  | Some rows => (inr rows, w)
  | None => (inl (Exn "FileNotFoundError" path), w)
  end.

Definition api_extract (url : string) (w : world)
  : (exn + list (option Z)) * world :=
  match w_api w with
  | ApiUp rows => (inr rows, w)
  | ApiDown => (inl (Exn "ConnectionError" url), w)
  | ApiInterrupted => (inl (BaseExn "KeyboardInterrupt" ""), w)
  end.

(** Cleaning drops null rows and repeated rows. *)
Definition clean (_ : unit) (rows : list (option Z)) (w : world)
  : (exn + list (option Z)) * world :=
  (inr (remove_dups (filter (fun r => r ≠ None) rows)), w).

(** Validation keeps the non-negative rows; a null row is an error. *)
Definition validate (_ : unit) (rows : list (option Z)) (w : world)
  : (exn + (list (option Z) * Report)) * world :=
  if decide (None ∈ rows) then
    (inl (Exn "ValueError" "null row"), w)
  else
    let good := filter (fun r => from_option (fun z => bool_decide (0 ≤ z)) false r) rows in
    (inr (good, [("valid_records", PInt (Z.of_nat (length good)))]), w).

Definition new_loader (v : yaml) (w : world) : (exn + unit) * world :=
  match v with
  | YMap _ => (inr tt, w)
  | _ => (inl (Exn "TypeError" "expected mapping"), w)
  end.

Definition db_load (_ : unit) (rows : list (option Z)) (mode : string)
    (w : world) : (exn + Z) * world :=
  let db := if decide (mode = "full") then rows else w_db w ++ rows in
  (inr (Z.of_nat (length rows)),
   mkWorld (w_time w) (w_files w) (w_csv w) (w_api w) db).

#[export] Instance collaborators : Collaborators := {|
  World := world;
  Row := option Z;
  clock := tick;
  open_read := read;
  safe_load := parse;
  CSVExtractor := string;
  CSVExtractor_new := new_with_str;
  CSVExtractor_extract := csv_extract;
  APIExtractor := string;
  APIExtractor_new := new_with_str;
  APIExtractor_extract := api_extract;
  DataCleaner := unit;
  DataCleaner_new := fun w => (inr tt, w);
  DataCleaner_clean := clean;
  DataValidator := unit;
  DataValidator_new := fun w => (inr tt, w);
  DataValidator_validate := validate;
  DatabaseLoader := unit;
  DatabaseLoader_new := new_loader;
  DatabaseLoader_load := db_load
|}.

(** A world with a configuration file, one CSV file and the API down. *)
Definition w0 : world :=
  mkWorld 1000
    [("config/database.yaml", full_text); ("config/empty.yaml", "");
     ("config/nokeys.yaml", "{}"); ("config/bad.yaml", "a: b: c")]
    [("vendas.csv", [Some 10; Some 20; Some 10; None; Some (-5); Some 7])]
    ApiDown
    [].

(** The same world with the API up. *)
Definition w1 : world :=
  mkWorld 1000 (w_files w0) (w_csv w0) (ApiUp [Some 1; Some 2]) [].

(** The same world, with the program interrupted during the API request. *)
Definition w2 : world :=
  mkWorld 1000 (w_files w0) (w_csv w0) ApiInterrupted [].

Definition h0 : Host := mkHost w0 [] [].
Definition h1 : Host := mkHost w1 [] [].
Definition h2 : Host := mkHost w2 [] [].

Definition full_config : yaml :=
  YMap [("csv_path", YStr "vendas.csv");
        ("api_url", YStr "http://api/vendas");
        ("database", YMap [("host", YStr "localhost")])].

Definition p0 : Proc := mkProc (mkPipeline full_config []) h0.
Definition p1 : Proc := mkProc (mkPipeline full_config []) h1.
Definition p2 : Proc := mkProc (mkPipeline full_config []) h2.

End Demo.

(** * Part 3: lemmas *)

(** ** The code at work on the concrete collaborators *)

Section DemoRuns.
Import Demo.

(** The toy loader returns the number of rows it was given. *)
Lemma demo_loader_returns_counts : loader_returns_counts.
Proof.
  intros l df mode w n w' H. unfold DatabaseLoader_load in H. simpl in H.
  unfold db_load in H. injection H as <- _. lia.
Qed.

Example run_csv_clean_validate :
  (run ["csv"] ["clean"; "validate"] "incremental" p0).1 = inr tt /\
  execution_log (self (run ["csv"] ["clean"; "validate"] "incremental" p0).2) =
    [success_entry "extract" 1001 6; success_entry "transform" 1002 3;
     success_entry "load" 1003 3].
Proof. split; reflexivity. Qed.

Example run_api_down :
  (run ["csv"; "api"] ["clean"] "full" p0).1 =
    inl (Exn "ConnectionError" "http://api/vendas") /\
  execution_log (self (run ["csv"; "api"] ["clean"] "full" p0).2) =
    [error_entry "extract" 1001 (Exn "ConnectionError" "http://api/vendas")].
Proof. split; reflexivity. Qed.

Example extract_skips_unknown_source :
  keys (match (extract ["db"; "api"; "ftp"; "csv"] p1).1 with
        | inr d => d
        | inl _ => []
        end) = ["csv"; "api"].
Proof. reflexivity. Qed.

Example load_without_database_key :
  (load [("csv", [Some 1])] "full"
     (mkProc (mkPipeline (YMap []) []) h0)).1 =
    inl (Exn "KeyError" "'database'").
Proof. reflexivity. Qed.

Example init_parse_error :
  (__init__ "config/bad.yaml" h0).1 =
    inl (Exn "ScannerError" "mapping values are not allowed here").
Proof. reflexivity. Qed.

End DemoRuns.

(** ** Equations of the monad *)

Section MonadFacts.
Context {S : Type}.

Lemma bind_ret_l {A B} (a : A) (k : A -> M S B) s : bind (ret a) k s = k a s.
Proof. done. Qed.

Lemma bind_ret_r {A} (m : M S A) s : bind m ret s = m s.
Proof. unfold bind, ret. by destruct (m s) as [[e|a] s']. Qed.

Lemma bind_assoc {A B D} (m : M S A) (k : A -> M S B) (k' : B -> M S D) s :
  bind (bind m k) k' s = bind m (fun a => bind (k a) k') s.
Proof. unfold bind. by destruct (m s) as [[e|a] s']. Qed.

Lemma bind_ext {A B} (m m' : M S A) (k k' : A -> M S B) s :
  m s = m' s -> (forall a s', k a s' = k' a s') -> bind m k s = bind m' k' s.
Proof.
  intros Hm Hk. unfold bind. rewrite Hm.
  by destruct (m' s) as [[e|a] s'].
Qed.

Lemma try_except_ext {A} (m m' : M S A) (h : exn -> M S A) s :
  m s = m' s -> try_except m h s = try_except m' h s.
Proof. intros Hm. unfold try_except. by rewrite Hm. Qed.

Lemma bind_inr_inv {A B} (m : M S A) (k : A -> M S B) s b s'' :
  bind m k s = (inr b, s'') ->
  exists a s', m s = (inr a, s') /\ k a s' = (inr b, s'').
Proof.
  unfold bind. destruct (m s) as [[e|a] s']; [done |]. by exists a, s'.
Qed.

Lemma bind_inl_inv {A B} (m : M S A) (k : A -> M S B) s e s'' :
  bind m k s = (inl e, s'') ->
  m s = (inl e, s'') \/
  exists a s', m s = (inr a, s') /\ k a s' = (inl e, s'').
Proof.
  unfold bind. destruct (m s) as [[e'|a] s']; intros H.
  - injection H as -> ->. by left.
  - right. by exists a, s'.
Qed.

Lemma bind_inr_intro {A B} (m : M S A) (k : A -> M S B) s a s' r :
  m s = (inr a, s') -> k a s' = r -> bind m k s = r.
Proof. intros Hm Hk. unfold bind. by rewrite Hm. Qed.

Lemma bind_inl_intro {A B} (m : M S A) (k : A -> M S B) s e s' :
  m s = (inl e, s') -> bind m k s = (inl e, s').
Proof. intros Hm. unfold bind. by rewrite Hm. Qed.

End MonadFacts.

(** Split a run of [x <- m ;; k] that returned into the runs of [m] and [k]. *)
Ltac inv_bind H :=
  let a := fresh "a" in
  let s := fresh "s" in
  let E := fresh "E" in
  apply bind_inr_inv in H as (a & s & E & H).

(** ** Python dicts *)

Lemma keys_dict_set {V} (k : string) (v : V) (d : dict V) :
  keys (dict_set k v d) = if decide (k ∈ keys d) then keys d else keys d ++ [k].
Proof.
  unfold keys. induction d as [|[k' v'] d IH].
  - cbn. destruct (decide (k ∈ [])) as [Hin|_]; [| done].
    by apply elem_of_nil in Hin.
  - cbn [dict_set]. rewrite fmap_cons. cbn [fst].
    destruct (decide (k = k')) as [->|Hne]; rewrite fmap_cons; cbn [fst].
    + destruct (decide (k' ∈ k' :: d.*1)) as [_|Hnin]; [done |].
      exfalso. apply Hnin. by left.
    + rewrite IH.
      destruct (decide (k ∈ d.*1)) as [Hin|Hnin],
               (decide (k ∈ k' :: d.*1)) as [Hin'|Hnin']; try done.
      * exfalso. apply Hnin'. by right.
      * apply elem_of_cons in Hin' as [?|?]; done.
Qed.

Lemma dict_set_fresh {V} (k : string) (v : V) (d : dict V) :
  k ∉ keys d -> dict_set k v d = d ++ [(k, v)].
Proof.
  unfold keys. induction d as [|[k' v'] d IH]; [done |].
  rewrite fmap_cons. cbn [fst dict_set].
  intros Hnin. apply not_elem_of_cons in Hnin as [Hne Hnin].
  destruct (decide (k = k')); [done |]. by rewrite IH.
Qed.

(** Filling an empty dict from the items of a dict gives the dict back. *)
Lemma dict_refill {V} (items acc : dict V) :
  NoDup (keys (acc ++ items)) ->
  foldl (fun acc kv => dict_set kv.1 kv.2 acc) acc items = acc ++ items.
Proof.
  revert acc. induction items as [|[k v] items IH]; intros acc Hnd; simpl.
  - by rewrite app_nil_r.
  - assert (Hk : k ∉ keys acc).
    { unfold keys in *. rewrite fmap_app, fmap_cons in Hnd.
      apply NoDup_app in Hnd as (_ & Hdisj & _).
      intros Hin. apply (Hdisj k Hin). by left. }
    rewrite (dict_set_fresh k v acc Hk), IH.
    + by rewrite <- app_assoc.
    + by rewrite <- app_assoc.
Qed.

(** ** Quiet code *)

Section Effects.
Context `{C : Collaborators}.

Lemma logged_ext_same p p' :
  logged (host p') = logged (host p) -> logged_ext p p'.
Proof. intros E. exists []. by rewrite app_nil_r. Qed.

Lemma logged_ext_refl p : logged_ext p p.
Proof. by apply logged_ext_same. Qed.

Lemma logged_ext_trans p1 p2 p3 :
  logged_ext p1 p2 -> logged_ext p2 p3 -> logged_ext p1 p3.
Proof.
  intros (n1 & E1 & F1) (n2 & E2 & F2). exists (n1 ++ n2). split.
  - by rewrite E2, E1, app_assoc.
  - by apply Forall_app.
Qed.

Lemma quiet_ret {A} (a : A) : quiet (ret a).
Proof. intros p. split; [done | apply logged_ext_refl]. Qed.

Lemma quiet_raise {A} (e : exn) : quiet (@raise Proc A e).
Proof. intros p. split; [done | apply logged_ext_refl]. Qed.

Lemma quiet_bind {A B} (m : M Proc A) (k : A -> M Proc B) :
  quiet m -> (forall a, quiet (k a)) -> quiet (bind m k).
Proof.
  intros Hm Hk p. unfold bind. specialize (Hm p).
  destruct (m p) as [[e|a] p1]; simpl in *; [done |].
  destruct Hm as [Hs Hl]. specialize (Hk a p1) as [Hs' Hl'].
  split; [congruence | by eapply logged_ext_trans].
Qed.

Lemma quiet_call {A} ev (f : World -> (exn + A) * World) : quiet (io (call ev f)).
Proof.
  intros p. unfold io, call. destruct (f _) as [r w]; simpl.
  split; [done | by apply logged_ext_same].
Qed.

Lemma quiet_now : quiet (io now).
Proof.
  intros p. unfold io, now. destruct (clock _) as [t w]; simpl.
  split; [done | by apply logged_ext_same].
Qed.

Lemma quiet_logger_info m :
  is_duration (INFO, m) = false -> quiet (io (logger_info m)).
Proof.
  intros Hm p. split; [done |]. exists [(INFO, m)]. split; [done |].
  by constructor.
Qed.

Lemma quiet_logger_error m :
  is_duration (ERROR, m) = false -> quiet (io (logger_error m)).
Proof.
  intros Hm p. split; [done |]. exists [(ERROR, m)]. split; [done |].
  by constructor.
Qed.

Lemma quiet_self_config : quiet self_config.
Proof. intros p. split; [done | apply logged_ext_refl]. Qed.

Lemma quiet_yaml_get cfg k : quiet (@yaml_get Proc cfg k).
Proof. destruct cfg; first [apply quiet_ret | apply quiet_raise]. Qed.

Lemma quiet_yaml_getitem cfg k : quiet (@yaml_getitem Proc cfg k).
Proof.
  destruct cfg; simpl; try apply quiet_raise.
  destruct (dict_get k m); [apply quiet_ret | apply quiet_raise].
Qed.

End Effects.

Create HintDb quiet.
#[global] Hint Resolve quiet_ret quiet_raise quiet_call quiet_now
  quiet_self_config quiet_yaml_get quiet_yaml_getitem : quiet.

(** Decompose a sequence of quiet steps. *)
Ltac quiet_steps :=
  repeat first
    [ apply quiet_bind; [| intros ?]
    | apply quiet_logger_info; reflexivity
    | apply quiet_logger_error; reflexivity
    | progress auto with quiet
    | match goal with
      | |- quiet (if ?b then _ else _) => destruct b
      | |- quiet (match ?x with _ => _ end) => destruct x
      end ].

(** ** The phases and [run] *)

Section Phases.
Context `{C : Collaborators}.

Lemma records_bind {A B} fase ok (P : A -> Prop) (m : M Proc A)
    (k : A -> M Proc B) :
  quiet m ->
  (forall p a, (m p).1 = inr a -> P a) ->
  (forall a, P a -> records_outcome fase ok (k a)) ->
  records_outcome fase ok (bind m k).
Proof.
  intros Hq HP Hk p. unfold bind.
  specialize (Hq p). specialize (HP p).
  destruct (m p) as [[e|a] p1]; simpl in *.
  - destruct Hq as [Hs Hl]. by split.
  - destruct Hq as [Hs Hl]. specialize (Hk a (HP a eq_refl) p1).
    destruct Hk as [Hl' Hr]. split; [by eapply logged_ext_trans |].
    rewrite Hs in Hr. exact Hr.
Qed.

Lemma records_bind_quiet {A B} fase ok (m : M Proc A) (k : A -> M Proc B) :
  quiet m ->
  (forall a, records_outcome fase ok (k a)) ->
  records_outcome fase ok (bind m k).
Proof.
  intros Hq Hk. apply (records_bind fase ok (fun _ => True)); auto.
Qed.

Lemma records_final {A} fase (ok : A -> Z -> Prop) (a : A) (n : Z) :
  ok a n ->
  records_outcome fase ok
    (t <- io now ;; execution_log_append (success_entry fase t n) ;; ret a).
Proof.
  intros Hok p. unfold bind, io, now, execution_log_append, ret.
  destruct (clock _) as [t w]; simpl.
  split; [by apply logged_ext_same |]. split; [done |]. by exists t, n.
Qed.

Lemma phase_intro {A} fase ok (start : message) (msg : string -> message)
    (body : M Proc A) :
  is_duration (INFO, start) = false ->
  (forall s, is_duration (ERROR, msg s) = false) ->
  records_outcome fase ok body ->
  forall p r p',
    (io (logger_info start) ;;
     try_except body
       (fun e =>
          io (logger_error (msg (str e))) ;;
          t <- io now ;;
          execution_log_append (error_entry fase t e) ;;
          raise e)) p = (r, p') ->
    phase_post fase ok p r p'.
Proof.
  intros Hstart Hmsg Hbody p r p'.
  unfold bind at 1. unfold io at 1. unfold logger_info at 1. simpl.
  set (p0 := mkProc _ _).
  assert (L0 : logged_ext p p0).
  { exists [(INFO, start)]. split; [done | by constructor]. }
  unfold try_except, phase_post. specialize (Hbody p0).
  destruct (body p0) as [[e|a] p1]; simpl in *.
  - destruct Hbody as [Hl Hs]. destruct (is_Exception e) eqn:He.
    + unfold bind, io, logger_error, now, execution_log_append, raise; simpl.
      destruct (clock _) as [t w]; simpl. rewrite Hs. simpl.
      intros [= <- <-]. simpl. rewrite He.
      split; [done |]. split; [| by exists t].
      eapply logged_ext_trans; [exact L0 |].
      eapply logged_ext_trans; [exact Hl |].
      exists [(ERROR, msg (str e))]. split; [done |].
      constructor; [apply Hmsg | done].
    + intros [= <- <-]. rewrite He, Hs. split; [done |].
      split; [by eapply logged_ext_trans | done].
  - destruct Hbody as (Hl & Hc & Hlog). intros [= <- <-]. split; [done |].
    split; [by eapply logged_ext_trans | done].
Qed.

Lemma quiet_transform_loop rules items acc :
  quiet (transform_loop rules items acc).
Proof.
  revert acc. induction items as [|[source df] items IH]; intros acc; simpl.
  - apply quiet_ret.
  - quiet_steps.
Qed.

Lemma quiet_load_loop loader mode items total :
  quiet (load_loop loader mode items total).
Proof.
  revert total. induction items as [|[source df] items IH]; intros total; simpl.
  - apply quiet_ret.
  - quiet_steps.
Qed.

Lemma extract_post sources p r p' :
  extract sources p = (r, p') ->
  phase_post "extract" (fun d n => n = sum_len d) p r p'.
Proof.
  unfold extract.
  apply (phase_intro "extract" _ MsgFaseExtracao MsgErroExtracao); [done | done |].
  apply records_bind_quiet; [quiet_steps | intros d1].
  apply records_bind_quiet; [quiet_steps | intros d2].
  by apply records_final.
Qed.

Lemma transform_post data rules p r p' :
  transform data rules p = (r, p') ->
  phase_post "transform" (fun d n => n = sum_len d) p r p'.
Proof.
  unfold transform.
  apply (phase_intro "transform" _ MsgFaseTransformacao MsgErroTransformacao);
    [done | done |].
  apply records_bind_quiet; [apply quiet_transform_loop | intros d].
  by apply records_final.
Qed.

Lemma load_loop_total loader mode items total p n :
  loader_returns_counts ->
  (load_loop loader mode items total p).1 = inr n -> total <= n.
Proof.
  intros Hc. revert total p.
  induction items as [|[source df] items IH]; intros total p; simpl.
  - unfold ret; simpl. intros [= ->]. lia.
  - unfold bind at 1. unfold io at 1. unfold logger_info at 1. simpl.
    unfold bind at 1. unfold io at 1. unfold call at 1. simpl.
    destruct (DatabaseLoader_load _ _ _ _) as [[e|k] w] eqn:E; simpl; [done |].
    unfold bind at 1. unfold io at 1. unfold logger_info at 1. simpl.
    intros H. apply IH in H. apply Hc in E. lia.
Qed.

Lemma load_post data mode p r p' :
  load data mode p = (r, p') ->
  phase_post "load" (fun _ n => loader_returns_counts -> 0 <= n) p r p'.
Proof.
  unfold load.
  apply (phase_intro "load" _ MsgFaseCarga MsgErroCarga); [done | done |].
  apply records_bind_quiet; [quiet_steps | intros cfg].
  apply records_bind_quiet; [quiet_steps | intros db].
  apply records_bind_quiet; [quiet_steps | intros loader].
  apply (records_bind _ _ (fun n => loader_returns_counts -> 0 <= n));
    [apply quiet_load_loop | | intros n Hn].
  { intros p0 n Hn Hc. by eapply load_loop_total. }
  apply records_bind_quiet; [quiet_steps | intros _].
  by apply records_final.
Qed.

Lemma run_handler_eq (e : exn) (q : Proc) :
  (if is_Exception e then
     (io (logger_error MsgSeparador) ;;
      io (logger_error (MsgPipelineFalhou (str e))) ;;
      io (logger_error MsgSeparador) ;;
      @raise Proc unit e) q
   else (inl e, q)) = (inl e, run_failed e q).
Proof.
  unfold run_failed. destruct (is_Exception e); [| done].
  unfold bind, io, logger_error, raise; simpl.
  by rewrite <- !app_assoc.
Qed.

Lemma run_failed_self e q : self (run_failed e q) = self q.
Proof. unfold run_failed. by destruct (is_Exception e). Qed.

Lemma run_failed_calls e q : calls (host (run_failed e q)) = calls (host q).
Proof. unfold run_failed. by destruct (is_Exception e). Qed.

(** What [run] itself logs when a phase raised. *)
Lemma run_failed_logged_eq e q :
  logged (host (run_failed e q)) =
    logged (host q) ++
      if is_Exception e then
        [(ERROR, MsgSeparador); (ERROR, MsgPipelineFalhou (str e));
         (ERROR, MsgSeparador)]
      else [].
Proof.
  unfold run_failed. destruct (is_Exception e); [done |].
  by rewrite app_nil_r.
Qed.

Lemma run_eq sources rules mode p :
  run sources rules mode p =
    match extract sources (run_entry p).2 with
    | (inl e, p1) => (inl e, run_failed e p1)
    | (inr d, p1) =>
        match transform d rules p1 with
        | (inl e, p2) => (inl e, run_failed e p2)
        | (inr d', p2) =>
            match load d' mode p2 with
            | (inl e, p3) => (inl e, run_failed e p3)
            | (inr _, p3) => (inr tt, run_done (run_entry p).1 p3)
            end
        end
    end.
Proof.
  unfold run, run_entry.
  unfold bind at 1. unfold io at 1. unfold now at 1.
  destruct (clock (world (host p))) as [t0 w0]; simpl.
  do 3 (unfold bind at 1; unfold io at 1; unfold logger_info at 1; simpl).
  rewrite <- !app_assoc. simpl.
  set (p0 := mkProc _ _).
  unfold try_except. unfold bind at 1.
  destruct (extract sources p0) as [[e|d] p1]; [apply run_handler_eq |].
  unfold bind at 1.
  destruct (transform d rules p1) as [[e|d'] p2]; [apply run_handler_eq |].
  unfold bind at 1.
  destruct (load d' mode p2) as [[e|[]] p3]; [apply run_handler_eq |].
  unfold run_done, bind, io, now, logger_info, ret. simpl.
  destruct (clock (world (host p3))) as [t1 w1]; simpl.
  by rewrite <- !app_assoc.
Qed.

Lemma run_entry_self p : self (run_entry p).2 = self p.
Proof. unfold run_entry. by destruct (clock _). Qed.

Lemma run_done_self t q : self (run_done t q) = self q.
Proof. unfold run_done. by destruct (clock _). Qed.

Lemma run_entry_logged p :
  logged (host (run_entry p).2) =
    logged (host p) ++
      [(INFO, MsgSeparador); (INFO, MsgIniciandoPipeline); (INFO, MsgSeparador)].
Proof. unfold run_entry. by destruct (clock _). Qed.

(** Every failure of [run] is the failure of one of its phases. *)
Lemma run_raises_inv sources rules mode p e p' :
  run sources rules mode p = (inl e, p') ->
  exists P, fails_during P sources rules mode p e.
Proof.
  rewrite run_eq.
  destruct (extract _ _) as [[e1|d] p1] eqn:E1.
  { intros [= -> <-]. exists PExtract. simpl. rewrite E1. by exists p1. }
  destruct (transform _ _ _) as [[e2|d'] p2] eqn:E2.
  { intros [= -> <-]. exists PTransform. simpl. rewrite E1.
    exists d, p1, p2. by rewrite E2. }
  destruct (load _ _ _) as [[e3|u] p3] eqn:E3; [| done].
  intros [= -> <-]. exists PLoad. simpl. rewrite E1.
  exists d, p1, d', p2, p3. by rewrite E2, E3.
Qed.

Lemma success_entry_shape fase t n :
  let en := success_entry fase t n in
  dict_get "fase" en = Some (PStr fase) /\
  dict_get "status" en = Some (PStr "success") /\
  dict_get "records" en = Some (PInt n) /\
  dict_get "error" en = None.
Proof. by repeat split. Qed.

Lemma error_entry_shape fase t e :
  let en := error_entry fase t e in
  dict_get "fase" en = Some (PStr fase) /\
  dict_get "status" en = Some (PStr "error") /\
  dict_get "records" en = None /\
  dict_get "error" en = Some (PStr (str e)).
Proof. by repeat split. Qed.

Lemma phase_post_appends {A} fase ok (m : M Proc A) :
  (forall p r p', m p = (r, p') -> phase_post fase ok p r p') ->
  appends_one_entry fase m.
Proof.
  intros Hpost p. destruct (m p) as [r p'] eqn:E.
  destruct (Hpost _ _ _ E) as (_ & _ & Hlog). cbn [fst snd].
  destruct r as [e|a]; cbn [recorded].
  - destruct (is_Exception e); [| done].
    destruct Hlog as (t & Hlog). exists (error_entry fase t e).
    destruct (error_entry_shape fase t e) as (Hf & Hs & Hr & He).
    split; [done |]. split; [done |]. split; [done |].
    rewrite Hs, Hr, He. split; split; done.
  - destruct Hlog as (t & n & Hlog & _). exists (success_entry fase t n).
    destruct (success_entry_shape fase t n) as (Hf & Hs & Hr & He).
    split; [done |]. split; [done |]. split; [done |].
    rewrite Hs, Hr, He. split; split; done.
Qed.

Lemma success_entry_is fase t n : is_success_entry fase n (success_entry fase t n).
Proof. repeat split. by exists t. Qed.

Lemma error_entry_is fase t e : is_error_entry fase (str e) (error_entry fase t e).
Proof. repeat split. by exists t. Qed.

Lemma duration_records_none (l : list LogRecord) :
  Forall (fun r => is_duration r = false) l -> duration_records l = [].
Proof.
  unfold duration_records. induction 1 as [|r l Hr _ IH]; [done |].
  rewrite filter_cons_False; [done | congruence].
Qed.

Lemma duration_records_app (l1 l2 : list LogRecord) :
  duration_records (l1 ++ l2) = duration_records l1 ++ duration_records l2.
Proof. apply filter_app. Qed.

(** What a call of [run] writes through the logger: the execution time
    once when it returns, and not at all when it raises. *)
Lemma run_logged sources rules mode p :
  exists new,
    logged (host (run sources rules mode p).2) = logged (host p) ++ new /\
    match (run sources rules mode p).1 with
    | inr _ => exists t0 t1, duration_records new = [(INFO, MsgTempoExecucao t0 t1)]
    | inl _ => duration_records new = []
    end.
Proof.
  rewrite run_eq. pose proof (run_entry_logged p) as L0.
  destruct (extract _ _) as [[e1|d] p1] eqn:E1.
  { apply extract_post in E1 as (_ & (n1 & L1 & F1) & _). cbn [fst snd].
    eexists. rewrite run_failed_logged_eq, L1, L0, <- !app_assoc.
    split; [done |].
    rewrite !duration_records_app, (duration_records_none n1 F1).
    by destruct (is_Exception e1). }
  destruct (transform _ _ _) as [[e2|d'] p2] eqn:E2.
  { apply extract_post in E1 as (_ & (n1 & L1 & F1) & _).
    apply transform_post in E2 as (_ & (n2 & L2 & F2) & _). cbn [fst snd].
    eexists. rewrite run_failed_logged_eq, L2, L1, L0, <- !app_assoc.
    split; [done |].
    rewrite !duration_records_app, (duration_records_none n1 F1),
      (duration_records_none n2 F2). by destruct (is_Exception e2). }
  apply extract_post in E1 as (_ & (n1 & L1 & F1) & _).
  apply transform_post in E2 as (_ & (n2 & L2 & F2) & _).
  destruct (load _ _ _) as [[e3|u] p3] eqn:E3;
    apply load_post in E3 as (_ & (n3 & L3 & F3) & _); cbn [fst snd].
  { eexists. rewrite run_failed_logged_eq, L3, L2, L1, L0, <- !app_assoc.
    split; [done |].
    rewrite !duration_records_app, (duration_records_none n1 F1),
      (duration_records_none n2 F2), (duration_records_none n3 F3).
    by destruct (is_Exception e3). }
  unfold run_done. destruct (clock (world (host p3))) as [t1 w1]. simpl.
  eexists. rewrite L3, L2, L1, L0, <- !app_assoc. split; [done |].
  rewrite !duration_records_app, (duration_records_none n1 F1),
    (duration_records_none n2 F2), (duration_records_none n3 F3).
  by exists (run_entry p).1, t1.
Qed.

(** A phase call on its own never logs the execution time. *)
Lemma phase_logged {A} fase ok (m : M Proc A) p :
  (forall r p', m p = (r, p') -> phase_post fase ok p r p') ->
  exists new,
    logged (host (m p).2) = logged (host p) ++ new /\
    duration_records new = [].
Proof.
  intros Hpost. destruct (m p) as [r p'] eqn:E.
  destruct (Hpost _ _ eq_refl) as (_ & (new & L & F) & _).
  exists new. split; [done | by apply duration_records_none].
Qed.

Lemma sum_len_from (l : list DataFrame) (a : Z) :
  foldl (fun acc df => acc + len df) a l =
    a + foldl (fun acc df => acc + len df) 0 l.
Proof.
  revert a. induction l as [|df l IH]; intros a; simpl; [lia |].
  rewrite IH, (IH (0 + len df)). lia.
Qed.

Lemma sum_len_nonneg (d : dict DataFrame) : 0 <= sum_len d.
Proof.
  unfold sum_len. induction (values d) as [|df l IH]; simpl; [lia |].
  rewrite sum_len_from. assert (0 <= len df) by (unfold len; lia). lia.
Qed.

End Phases.

(** ** Which collaborators a piece of code calls *)

Section Calls.
Context `{C : Collaborators}.

Lemma calls_only_same allowed {A} (m : M Proc A) :
  (forall p, calls (host (m p).2) = calls (host p)) -> calls_only allowed m.
Proof. intros H p. exists []. by rewrite app_nil_r. Qed.

Lemma calls_only_ret allowed {A} (a : A) : calls_only allowed (ret a).
Proof. by apply calls_only_same. Qed.

Lemma calls_only_raise allowed {A} e : calls_only allowed (@raise Proc A e).
Proof. by apply calls_only_same. Qed.

Lemma calls_only_logger_info allowed m : calls_only allowed (io (logger_info m)).
Proof. by apply calls_only_same. Qed.

Lemma calls_only_logger_error allowed m : calls_only allowed (io (logger_error m)).
Proof. by apply calls_only_same. Qed.

Lemma calls_only_now allowed : calls_only allowed (io now).
Proof.
  apply calls_only_same. intros p. unfold io, now. by destruct (clock _).
Qed.

Lemma calls_only_self_config allowed : calls_only allowed self_config.
Proof. by apply calls_only_same. Qed.

Lemma calls_only_append allowed en : calls_only allowed (execution_log_append en).
Proof. by apply calls_only_same. Qed.

Lemma calls_only_yaml_get allowed cfg k : calls_only allowed (@yaml_get Proc cfg k).
Proof. apply calls_only_same. intros p. by destruct cfg. Qed.

Lemma calls_only_call allowed {A} ev (f : World -> (exn + A) * World) :
  allowed ev = true -> calls_only allowed (io (call ev f)).
Proof.
  intros Hev p. exists [ev]. unfold io, call. destruct (f _) as [r w]; simpl.
  split; [done | by constructor].
Qed.

Lemma calls_only_bind allowed {A B} (m : M Proc A) (k : A -> M Proc B) :
  calls_only allowed m -> (forall a, calls_only allowed (k a)) ->
  calls_only allowed (bind m k).
Proof.
  intros Hm Hk p. unfold bind. destruct (Hm p) as (c1 & E1 & F1).
  destruct (m p) as [[e|a] p1]; simpl in *; [by exists c1 |].
  destruct (Hk a p1) as (c2 & E2 & F2). exists (c1 ++ c2).
  split; [by rewrite E2, E1, app_assoc | by apply Forall_app].
Qed.

Lemma calls_only_yaml_getitem allowed cfg k :
  calls_only allowed (@yaml_getitem Proc cfg k).
Proof.
  apply calls_only_same. intros p. destruct cfg; try done.
  simpl. by destruct (dict_get k m).
Qed.

Lemma calls_only_try allowed {A} (m : M Proc A) (h : exn -> M Proc A) :
  calls_only allowed m -> (forall e, calls_only allowed (h e)) ->
  calls_only allowed (try_except m h).
Proof.
  intros Hm Hh p. unfold try_except. destruct (Hm p) as (c1 & E1 & F1).
  destruct (m p) as [[e|a] p1]; simpl in *; [| by exists c1].
  destruct (is_Exception e); [| by exists c1].
  destruct (Hh e p1) as (c2 & E2 & F2). exists (c1 ++ c2).
  split; [by rewrite E2, E1, app_assoc | by apply Forall_app].
Qed.

Lemma calls_seq_bind a b {A B} (m : M Proc A) (k : A -> M Proc B) :
  calls_only a m -> (forall x, calls_only b (k x)) -> calls_seq a b (bind m k).
Proof.
  intros Hm Hk p. unfold bind. destruct (Hm p) as (c1 & E1 & F1).
  destruct (m p) as [[e|x] p1]; simpl in *.
  - exists c1, []. by rewrite app_nil_r.
  - destruct (Hk x p1) as (c2 & E2 & F2). exists c1, c2.
    split; [by rewrite E2, E1, app_assoc | done].
Qed.

Lemma calls_seq_before a b {A B} (m : M Proc A) (k : A -> M Proc B) :
  calls_only no_call m -> (forall x, calls_seq a b (k x)) ->
  calls_seq a b (bind m k).
Proof.
  intros Hm Hk p. unfold bind. destruct (Hm p) as (c0 & E0 & F0).
  assert (c0 = []) as ->.
  { destruct F0 as [|ev ? Hev]; [done | by unfold no_call in Hev]. }
  rewrite app_nil_r in E0.
  destruct (m p) as [[e|x] p1]; simpl in *.
  - exists [], []. by rewrite E0, app_nil_r.
  - destruct (Hk x p1) as (c1 & c2 & E & F). exists c1, c2. by rewrite <- E0.
Qed.

Lemma calls_seq_try a b {A} (m : M Proc A) (h : exn -> M Proc A) :
  calls_seq a b m -> (forall e, calls_only no_call (h e)) ->
  calls_seq a b (try_except m h).
Proof.
  intros Hm Hh p. unfold try_except. destruct (Hm p) as (c1 & c2 & E & F).
  destruct (m p) as [[e|x] p1]; simpl in *; [| by exists c1, c2].
  destruct (is_Exception e); [| by exists c1, c2].
  destruct (Hh e p1) as (c0 & E0 & F0).
  assert (c0 = []) as ->.
  { destruct F0 as [|ev ? Hev]; [done | by unfold no_call in Hev]. }
  rewrite app_nil_r in E0. exists c1, c2. by rewrite E0.
Qed.

End Calls.

Create HintDb calls.
#[global] Hint Resolve calls_only_ret calls_only_raise calls_only_logger_info
  calls_only_logger_error calls_only_now calls_only_self_config
  calls_only_append calls_only_yaml_get calls_only_yaml_getitem : calls.

Ltac calls_steps :=
  repeat first
    [ apply calls_only_bind; [| intros ?]
    | apply calls_only_try; [| intros ?]
    | apply calls_only_call; reflexivity
    | progress auto with calls
    | match goal with
      | |- calls_only _ (if ?b then _ else _) => destruct b
      | |- calls_only _ (match ?x with _ => _ end) => destruct x
      end ].

Section PhaseCalls.
Context `{C : Collaborators}.

Lemma transform_loop_calls_only rules items acc :
  calls_only not_config_load (transform_loop rules items acc).
Proof.
  revert acc. induction items as [|[source df] items IH]; intros acc; simpl;
    calls_steps.
Qed.

Lemma load_loop_calls_only loader mode items total :
  calls_only not_config_load (load_loop loader mode items total).
Proof.
  revert total. induction items as [|[source df] items IH]; intros total; simpl;
    calls_steps.
Qed.

Lemma extract_calls_only sources : calls_only not_config_load (extract sources).
Proof. unfold extract. calls_steps. Qed.

Lemma transform_calls_only data rules :
  calls_only not_config_load (transform data rules).
Proof. unfold transform. calls_steps. apply transform_loop_calls_only. Qed.

Lemma load_calls_only data mode : calls_only not_config_load (load data mode).
Proof. unfold load. calls_steps. apply load_loop_calls_only. Qed.

(** After construction nothing opens or parses the configuration file. *)
Lemma run_calls_only sources rules mode :
  calls_only not_config_load (run sources rules mode).
Proof.
  unfold run.
  calls_steps; first [apply transform_loop_calls_only | apply load_loop_calls_only].
Qed.

(** The constructor opens and parses the file once. *)
Lemma init_loads_once config_path h obj h' :
  __init__ config_path h = (inr obj, h') ->
  calls h' = calls h ++ [OpenConfig; SafeLoad] /\
  exists text w,
    open_read config_path (world h) = (inr text, w) /\
    safe_load text = inr (config obj).
Proof.
  unfold __init__, _load_config, bind, open_, yaml_safe_load, call, ret,
    logger_info.
  destruct (open_read config_path (world h)) as [[e|text] w]; simpl; [done |].
  destruct (safe_load text) as [e|cfg] eqn:E; simpl; [done |].
  intros [= <- <-]. simpl. rewrite <- app_assoc. split; [done |].
  by exists text, w.
Qed.

(** [extract] calls the CSV extractor, if at all, before the API extractor. *)
Lemma extract_calls_in_order (sources : list string) :
  calls_seq is_csv_call is_api_call (extract sources).
Proof.
  unfold extract.
  apply calls_seq_before; [calls_steps | intros _].
  apply calls_seq_try; [| intros e; calls_steps].
  apply calls_seq_bind; [calls_steps | intros d1].
  calls_steps.
Qed.

Lemma io_call_calls {A} ev (f : World -> (exn + A) * World) p r p' :
  io (call ev f) p = (r, p') -> calls (host p') = calls (host p) ++ [ev].
Proof.
  unfold io, call. destruct (f _) as [r' w]. by intros [= _ <-].
Qed.

Lemma logger_info_calls m p r p' :
  io (logger_info m) p = (r, p') -> calls (host p') = calls (host p).
Proof. by intros [= _ <-]. Qed.

Lemma clean_rule_calls df p d p' :
  clean_rule df p = (inr d, p') ->
  calls (host p') = calls (host p) ++ [NewDataCleaner; Clean].
Proof.
  unfold clean_rule. intros H. do 4 inv_bind H. injection H as _ <-.
  apply logger_info_calls in E as E'. apply io_call_calls in E0.
  apply io_call_calls in E1. apply logger_info_calls in E2.
  rewrite E2, E1, E0, E', <- app_assoc. done.
Qed.

Lemma validate_rule_calls df p d p' :
  validate_rule df p = (inr d, p') ->
  calls (host p') = calls (host p) ++ [NewDataValidator; Validate].
Proof.
  unfold validate_rule. intros H. do 3 inv_bind H.
  apply logger_info_calls in E as E'. apply io_call_calls in E0.
  apply io_call_calls in E1.
  destruct a1 as [df' report]. destruct (dict_get _ _); [| done].
  inv_bind H. injection H as _ <-. apply logger_info_calls in E2.
  rewrite E2, E1, E0, E', <- app_assoc. done.
Qed.

Lemma apply_rule_calls r df p d p' :
  apply_rule r df p = (inr d, p') ->
  calls (host p') = calls (host p) ++ rule_calls r.
Proof.
  unfold apply_rule, rule_calls.
  destruct (decide (r = "clean")); [apply clean_rule_calls |].
  destruct (decide (r = "validate")); [apply validate_rule_calls |].
  intros [= _ <-]. by rewrite app_nil_r.
Qed.

Lemma apply_rules_calls rs df p d p' :
  apply_rules rs df p = (inr d, p') ->
  calls (host p') = calls (host p) ++ concat (rule_calls <$> rs).
Proof.
  revert df p. induction rs as [|r rs IH]; intros df p; cbn [apply_rules].
  - intros [= _ <-]. by rewrite app_nil_r.
  - intros H. inv_bind H. apply apply_rule_calls in E. apply IH in H.
    rewrite H, E, fmap_cons, <- app_assoc. done.
Qed.

(** A transformation that returns has applied, to each source in turn, the
    requested rules by priority. *)
Lemma transform_sources_calls rules items acc p d p' :
  transform_sources rules items acc p = (inr d, p') ->
  calls (host p') =
    calls (host p) ++ transform_calls rules (length items).
Proof.
  revert acc p. induction items as [|[source df] items IH]; intros acc p;
    cbn [transform_sources].
  - intros [= _ <-]. by rewrite app_nil_r.
  - intros H. do 2 inv_bind H. apply logger_info_calls in E.
    apply apply_rules_calls in E0. apply IH in H.
    rewrite H, E0, E. unfold transform_calls. cbn [length replicate concat].
    by rewrite <- app_assoc.
Qed.

Lemma transform_spec_calls data rules p d p' :
  transform_spec data rules p = (inr d, p') ->
  calls (host p') =
    calls (host p) ++ transform_calls rules (length data).
Proof.
  unfold transform_spec. intros H. inv_bind H. apply logger_info_calls in E.
  unfold try_except in H.
  match type of H with
  | match ?body s with _ => _ end = _ =>
      destruct (body s) as [[e0|d0] p1] eqn:E0
  end.
  { destruct (is_Exception e0); [| done].
    unfold bind, io, logger_error, now, execution_log_append, raise in H.
    simpl in H. by destruct (clock _). }
  injection H as _ <-. do 3 inv_bind E0. injection E0 as _ <-.
  apply transform_sources_calls in E1. rewrite <- E.
  unfold io, now in E2. destruct (clock _) in E2. injection E2 as _ <-.
  injection E3 as _ <-. done.
Qed.

End PhaseCalls.

(** ** Frame of the calls on a pipeline object *)

Section Frames.
Context `{C : Collaborators}.

Lemma phase_post_frame {A} fase ok p (r : exn + A) p' :
  phase_post fase ok p r p' ->
  config (self p') = config (self p) /\
  execution_log (self p) `prefix_of` execution_log (self p').
Proof.
  intros (Hc & _ & Hl). split; [done |].
  destruct r as [e|a].
  - destruct (is_Exception e); [| by rewrite Hl].
    destruct Hl as (t & ->). by eexists.
  - destruct Hl as (t & n & -> & _). by eexists.
Qed.

Lemma run_frame sources rules mode p :
  let p' := (run sources rules mode p).2 in
  config (self p') = config (self p) /\
  execution_log (self p) `prefix_of` execution_log (self p').
Proof.
  simpl. rewrite run_eq.
  assert (F0 : config (self (run_entry p).2) = config (self p) /\
               execution_log (self p) `prefix_of`
                 execution_log (self (run_entry p).2)).
  { by rewrite run_entry_self. }
  destruct F0 as [C0 P0].
  destruct (extract _ _) as [r1 p1] eqn:E1.
  apply extract_post, phase_post_frame in E1 as [C1 P1].
  destruct r1 as [e|d]; cbn [fst snd].
  { rewrite run_failed_self. split; [congruence | by etrans]. }
  destruct (transform _ _ _) as [r2 p2] eqn:E2.
  apply transform_post, phase_post_frame in E2 as [C2 P2].
  destruct r2 as [e|d']; cbn [fst snd].
  { rewrite run_failed_self.
    split; [congruence | by repeat (etrans; [eassumption |])]. }
  destruct (load _ _ _) as [r3 p3] eqn:E3.
  apply load_post, phase_post_frame in E3 as [C3 P3].
  destruct r3 as [e|u]; cbn [fst snd].
  { rewrite run_failed_self.
    split; [congruence | by repeat (etrans; [eassumption |])]. }
  rewrite run_done_self.
  split; [congruence | by repeat (etrans; [eassumption |])].
Qed.

(** Each call leaves the configuration as it was and only adds to the log. *)
Lemma after_frame (c : api_call) (p : Proc) :
  config (self (after c p)) = config (self p) /\
  execution_log (self p) `prefix_of` execution_log (self (after c p)).
Proof.
  destruct c; simpl.
  - destruct (extract _ _) as [r p'] eqn:E.
    by apply extract_post, phase_post_frame in E.
  - destruct (transform _ _ _) as [r p'] eqn:E.
    by apply transform_post, phase_post_frame in E.
  - destruct (load _ _ _) as [r p'] eqn:E.
    by apply load_post, phase_post_frame in E.
  - apply run_frame.
  - done.
Qed.

Lemma after_all_frame (cs : list api_call) (p : Proc) :
  config (self (after_all cs p)) = config (self p) /\
  execution_log (self p) `prefix_of` execution_log (self (after_all cs p)).
Proof.
  unfold after_all. revert p.
  induction cs as [|c cs IH]; intros p; simpl; [done |].
  destruct (IH (after c p)) as [Hc Hp].
  destruct (after_frame c p) as [Hc' Hp'].
  split; [congruence | by etrans].
Qed.

Lemma after_calls (c : api_call) :
  calls_only not_config_load (fun p => (inr tt, after c p)).
Proof.
  destruct c; intros p; simpl.
  - apply extract_calls_only.
  - apply transform_calls_only.
  - apply load_calls_only.
  - apply run_calls_only.
  - exists []. by rewrite app_nil_r.
Qed.

Lemma after_all_calls (cs : list api_call) (p : Proc) :
  exists evs,
    calls (host (after_all cs p)) = calls (host p) ++ evs /\
    Forall (fun ev => is_config_load ev = false) evs.
Proof.
  unfold after_all. revert p. induction cs as [|c cs IH]; intros p; simpl.
  - exists []. by rewrite app_nil_r.
  - destruct (after_calls c p) as (e1 & E1 & F1). simpl in E1.
    destruct (IH (after c p)) as (e2 & E2 & F2).
    exists (e1 ++ e2). split; [by rewrite E2, E1, app_assoc |].
    apply Forall_app. split; [| done].
    eapply Forall_impl; [exact F1 |]. intros ev.
    unfold not_config_load. by destruct (is_config_load ev).
Qed.

End Frames.

(** ** The arguments of extract and transform *)

Section ArgumentLists.
Context `{C : Collaborators}.

(** [extract] looks at its argument only to ask whether "csv" and "api" are
    in it. *)
Lemma extract_ext (S1 S2 : list string) :
  ("csv" ∈ S1 <-> "csv" ∈ S2) ->
  ("api" ∈ S1 <-> "api" ∈ S2) ->
  extract S1 = extract S2.
Proof.
  intros Hcsv Hapi. unfold extract.
  destruct (decide ("csv" ∈ S1)), (decide ("csv" ∈ S2)); try tauto;
    destruct (decide ("api" ∈ S1)), (decide ("api" ∈ S2)); tauto || reflexivity.
Qed.

(** The mapping [extract] returns, by the sources asked for. *)
Lemma extract_returns_keys (sources : list string) p d p' :
  extract sources p = (inr d, p') ->
  keys d = filter (fun k => k ∈ sources) recognized_sources.
Proof.
  unfold extract. intros H.
  apply bind_inr_inv in H as (_ & p0 & _ & H).
  unfold try_except in H.
  match type of H with
  | match ?body p0 with _ => _ end = _ =>
      destruct (body p0) as [[e|d0] p1] eqn:E
  end.
  { destruct (is_Exception e); [| done].
    unfold bind, io, logger_error, now, execution_log_append, raise in H.
    simpl in H. by destruct (clock _). }
  injection H as <- <-.
  apply bind_inr_inv in E as (d1 & q1 & E1 & E).
  apply bind_inr_inv in E as (d2 & q2 & E2 & E).
  apply bind_inr_inv in E as (t & q3 & _ & E).
  apply bind_inr_inv in E as (_ & q4 & _ & E).
  injection E as <- _.
  unfold recognized_sources.
  assert (K1 : keys d1 = if decide ("csv" ∈ sources) then ["csv"] else []).
  { destruct (decide ("csv" ∈ sources)); [| by injection E1 as <- _].
    do 6 inv_bind E1. by injection E1 as <- _. }
  assert (K2 : keys d2 = keys d1 ++ if decide ("api" ∈ sources) then ["api"] else []).
  { destruct (decide ("api" ∈ sources));
      [| injection E2 as <- _; by rewrite app_nil_r].
    do 6 inv_bind E2. injection E2 as <- _. rewrite keys_dict_set, K1.
    by destruct (decide ("csv" ∈ sources)). }
  etrans; [exact K2 |]. rewrite K1. cbn.
  by destruct (decide ("csv" ∈ sources)), (decide ("api" ∈ sources)).
Qed.

Lemma transform_loop_ext (R1 R2 : list string) items acc p :
  ("clean" ∈ R1 <-> "clean" ∈ R2) ->
  ("validate" ∈ R1 <-> "validate" ∈ R2) ->
  transform_loop R1 items acc p = transform_loop R2 items acc p.
Proof.
  intros Hc Hv. revert acc p.
  induction items as [|[source df] items IH]; intros acc p; [done |].
  cbn [transform_loop].
  apply bind_ext; [done | intros _ p1].
  apply bind_ext.
  { destruct (decide ("clean" ∈ R1)), (decide ("clean" ∈ R2)); tauto || done. }
  intros df1 p2. apply bind_ext; [| intros df2 p3; apply IH].
  destruct (decide ("validate" ∈ R1)), (decide ("validate" ∈ R2)); tauto || done.
Qed.

Lemma transform_ext (R1 R2 : list string) data p :
  ("clean" ∈ R1 <-> "clean" ∈ R2) ->
  ("validate" ∈ R1 <-> "validate" ∈ R2) ->
  transform data R1 p = transform data R2 p.
Proof.
  intros Hc Hv. unfold transform.
  apply bind_ext; [done | intros _ p1].
  apply try_except_ext. apply bind_ext; [| done].
  by apply transform_loop_ext.
Qed.

Lemma requested_rules_eq (rules : list string) :
  requested_rules rules =
    (if decide ("clean" ∈ rules) then ["clean"] else []) ++
    (if decide ("validate" ∈ rules) then ["validate"] else []).
Proof.
  unfold requested_rules, rule_priority. cbn.
  by destruct (decide ("clean" ∈ rules)), (decide ("validate" ∈ rules)).
Qed.

Lemma apply_rules_nil {B} df (k : DataFrame -> M Proc B) s :
  bind (apply_rules [] df) k s = k df s.
Proof. done. Qed.

Lemma apply_rules_one {B} r df (k : DataFrame -> M Proc B) s :
  bind (apply_rules [r] df) k s = bind (apply_rule r df) k s.
Proof.
  cbn [apply_rules]. rewrite bind_assoc. apply bind_ext; [done |].
  intros df1 s1. by rewrite bind_ret_l.
Qed.

Lemma apply_rules_two {B} r1 r2 df (k : DataFrame -> M Proc B) s :
  bind (apply_rules [r1; r2] df) k s =
    bind (apply_rule r1 df) (fun df1 => bind (apply_rule r2 df1) k) s.
Proof.
  cbn [apply_rules]. rewrite bind_assoc. apply bind_ext; [done |].
  intros df1 s1. apply apply_rules_one.
Qed.

Lemma transform_loop_refines rules items acc p :
  transform_loop rules items acc p = transform_sources rules items acc p.
Proof.
  revert acc p. induction items as [|[source df] items IH]; intros acc p; [done |].
  cbn [transform_loop transform_sources].
  apply bind_ext; [done | intros _ p1].
  rewrite requested_rules_eq.
  destruct (decide ("clean" ∈ rules)), (decide ("validate" ∈ rules));
    cbn [app].
  - rewrite apply_rules_two. apply bind_ext; [done | intros df1 p2].
    apply bind_ext; [done | intros df2 p3]. apply IH.
  - rewrite apply_rules_one. apply bind_ext; [done | intros df1 p2].
    rewrite bind_ret_l. apply IH.
  - rewrite apply_rules_one, bind_ret_l. apply bind_ext; [done | intros df2 p3].
    apply IH.
  - rewrite apply_rules_nil, !bind_ret_l. apply IH.
Qed.

Lemma transform_refines data rules p :
  transform data rules p = transform_spec data rules p.
Proof.
  unfold transform, transform_spec.
  apply bind_ext; [done | intros _ p1].
  apply try_except_ext. apply bind_ext; [| done].
  apply transform_loop_refines.
Qed.

Lemma requested_rules_mem (rules : list string) (r : string) :
  r ∈ requested_rules rules <-> r ∈ rules /\ r ∈ rule_priority.
Proof. unfold requested_rules. by rewrite list_elem_of_filter. Qed.

Lemma transform_loop_no_rules rules items acc p :
  "clean" ∉ rules -> "validate" ∉ rules ->
  exists p',
    transform_loop rules items acc p =
      (inr (foldl (fun acc kv => dict_set kv.1 kv.2 acc) acc items), p') /\
    self p' = self p /\
    calls (host p') = calls (host p) /\
    world (host p') = world (host p).
Proof.
  intros Hc Hv. revert acc p.
  induction items as [|[source df] items IH]; intros acc p.
  - by exists p.
  - cbn [transform_loop foldl].
    destruct (decide ("clean" ∈ rules)); [done |].
    destruct (decide ("validate" ∈ rules)); [done |].
    unfold bind at 1. unfold io at 1. unfold logger_info at 1. cbn.
    match goal with
    | |- context [transform_loop _ _ ?acc' ?q] =>
        destruct (IH acc' q) as (p' & E & Hs & Hcalls & Hw)
    end.
    exists p'. by rewrite E.
Qed.

End ArgumentLists.

(** ** Inversion of the primitive actions and of a phase *)

Section Inversion.
Context `{C : Collaborators}.

Lemma now_inv p r p' :
  io now p = (r, p') ->
  exists t, r = inr t /\ self p' = self p /\
            calls (host p') = calls (host p) /\
            logged (host p') = logged (host p).
Proof.
  unfold io, now. destruct (clock _) as [t w]. cbn. intros [= <- <-].
  by exists t.
Qed.

Lemma logger_info_inv m p r p' :
  io (logger_info m) p = (r, p') -> r = inr tt /\ p' = log_line INFO m p.
Proof. by intros [= <- <-]. Qed.

Lemma self_config_inv p r p' :
  self_config p = (r, p') -> r = inr (config (self p)) /\ p' = p.
Proof. by intros [= <- <-]. Qed.

Lemma append_inv en p r p' :
  execution_log_append en p = (r, p') ->
  r = inr tt /\ host p' = host p /\ config (self p') = config (self p) /\
  execution_log (self p') = execution_log (self p) ++ [en].
Proof. by intros [= <- <-]. Qed.

Lemma yaml_get_inv cfg k (p : Proc) r p' :
  yaml_get cfg k p = (r, p') -> p' = p.
Proof. destruct cfg; by intros [= _ <-]. Qed.

Lemma yaml_getitem_inv cfg k (p : Proc) r p' :
  yaml_getitem cfg k p = (r, p') ->
  p' = p /\
  match r with
  | inr v => database_block cfg = Some v \/ k <> "database"
  | inl e => (exn_class e = "KeyError" \/ exn_class e = "TypeError") /\
             is_Exception e = true
  end.
Proof.
  destruct cfg; simpl;
    try (intros [= <- <-]; split; [done | split; [by right | done]]).
  destruct (dict_get k m) as [v|] eqn:E; intros [= <- <-]; (split; [done |]).
  - destruct (decide (k = "database")) as [->|]; [by left | by right].
  - split; [by left | done].
Qed.

Lemma io_call_inv {A} ev (f : World -> (exn + A) * World) p r p' :
  io (call ev f) p = (r, p') ->
  exists w,
    f (world (host p)) = (r, w) /\
    p' = mkProc (self p) (mkHost w (logged (host p)) (calls (host p) ++ [ev])).
Proof.
  unfold io, call. destruct (f _) as [r' w]. cbn. intros [= <- <-].
  by exists w.
Qed.

(** What a phase does, reduced to what its guarded block does: the block
    runs after the first logger line; when it raises, the handler adds one
    ERROR record and one error entry and raises the same exception. *)
Lemma phase_inv {A} fase (start : message) (msg : string -> message)
    (body : M Proc A) p r p' :
  (io (logger_info start) ;;
   try_except body
     (fun e =>
        io (logger_error (msg (str e))) ;;
        t <- io now ;;
        execution_log_append (error_entry fase t e) ;;
        raise e)) p = (r, p') ->
  match r with
  | inr a => body (log_line INFO start p) = (inr a, p')
  | inl e =>
      exists p1,
        body (log_line INFO start p) = (inl e, p1) /\
        calls (host p') = calls (host p1) /\
        logged (host p') =
          logged (host p1) ++
            if is_Exception e then [(ERROR, msg (str e))] else []
  end.
Proof.
  unfold bind at 1. unfold io at 1. unfold logger_info at 1. cbn.
  fold (log_line INFO start p). unfold try_except.
  destruct (body (log_line INFO start p)) as [[e|a] p1].
  - destruct (is_Exception e) eqn:He.
    + unfold bind, io, logger_error, now, execution_log_append, raise. cbn.
      destruct (clock _) as [t w]. cbn. intros [= <- <-]. rewrite He.
      by exists p1.
    + intros [= <- <-]. rewrite He. exists p1. by rewrite app_nil_r.
  - by intros [= <- <-].
Qed.

End Inversion.

(** ** The collaborator calls of load *)

Section LoadCalls.
Context `{C : Collaborators}.

Lemma load_loop_returns_calls loader mode items total p n p' :
  load_loop loader mode items total p = (inr n, p') ->
  calls (host p') = calls (host p) ++ replicate (length items) LoaderLoad.
Proof.
  revert total p. induction items as [|[source df] items IH]; intros total p;
    cbn [load_loop].
  - intros [= _ <-]. by rewrite app_nil_r.
  - intros H. do 3 inv_bind H.
    apply logger_info_calls in E. apply io_call_calls in E0.
    apply logger_info_calls in E1. apply IH in H.
    rewrite H, E1, E0, E, <- app_assoc. done.
Qed.

(** A loop that raises has made the call that raised and, before it, one
    call per earlier source. *)
Lemma load_loop_raises_calls loader mode items total p e p' :
  load_loop loader mode items total p = (inl e, p') ->
  exists k, (1 <= k <= length items)%nat /\
    calls (host p') = calls (host p) ++ replicate k LoaderLoad.
Proof.
  revert total p. induction items as [|[source df] items IH]; intros total p;
    cbn [load_loop]; [done |].
  intros H.
  apply bind_inl_inv in H as [H | (u & p1 & E & H)]; [done |].
  apply logger_info_calls in E.
  apply bind_inl_inv in H as [H | (n & p2 & E0 & H)].
  { apply io_call_calls in H. exists 1%nat. cbn. split; [lia |].
    by rewrite H, E. }
  apply io_call_calls in E0.
  apply bind_inl_inv in H as [H | (u' & p3 & E1 & H)]; [done |].
  apply logger_info_calls in E1.
  apply IH in H as (k & Hk & H). exists (S k). cbn. split; [lia |].
  rewrite H, E1, E0, E, <- app_assoc. done.
Qed.

End LoadCalls.

(** ** What extract and transform return *)

Section Returns.
Context `{C : Collaborators}.

(** The guarded block of [extract], by what it returns: the mapping after
    the CSV step, then the mapping after the API step. *)
Lemma extract_returns_inv (sources : list string) p d p' :
  extract sources p = (inr d, p') ->
  exists d1 q1 q2,
    (if decide ("csv" ∈ sources) then
       exists df q,
         read_csv (log_line INFO MsgExtraindoCSV (log_line INFO MsgFaseExtracao p))
           = (inr df, q) /\
         d1 = [("csv", df)] /\
         calls (host q1) = calls (host p) ++ [NewCSVExtractor; CSVExtract]
     else d1 = [] /\ q1 = log_line INFO MsgFaseExtracao p) /\
    (if decide ("api" ∈ sources) then
       exists df q,
         read_api (log_line INFO MsgExtraindoAPI q1) = (inr df, q) /\
         d = dict_set "api" df d1 /\
         calls (host q2) = calls (host q1) ++ [NewAPIExtractor; APIExtract]
     else d = d1 /\ calls (host q2) = calls (host q1)) /\
    calls (host p') = calls (host q2).
Proof.
  unfold extract. intros H. apply phase_inv in H.
  apply bind_inr_inv in H as (d1 & q1 & E1 & H).
  apply bind_inr_inv in H as (d2 & q2 & E2 & H).
  apply bind_inr_inv in H as (t & q3 & E3 & H).
  apply bind_inr_inv in H as (u3 & q4 & E4 & H).
  injection H as <- <-.
  apply now_inv in E3 as (_ & _ & _ & Hc & _).
  apply append_inv in E4 as (_ & Hh & _).
  exists d1, q1, q2. split; [| split; [| by rewrite Hh, Hc]].
  - destruct (decide ("csv" ∈ sources)).
    + apply bind_inr_inv in E1 as (u & s0 & L0 & E1).
      apply bind_inr_inv in E1 as (cfg & s1 & L1 & E1).
      apply bind_inr_inv in E1 as (path & s2 & L2 & E1).
      apply bind_inr_inv in E1 as (x & s3 & L3 & E1).
      apply bind_inr_inv in E1 as (df & s4 & L4 & E1).
      apply bind_inr_inv in E1 as (u' & s5 & L5 & E1).
      injection E1 as <- <-.
      apply logger_info_inv in L0 as [_ ->].
      pose proof L1 as [_ ->]%self_config_inv.
      pose proof L2 as ->%yaml_get_inv.
      pose proof L3 as Hc1%io_call_calls. pose proof L4 as Hc2%io_call_calls.
      apply logger_info_calls in L5.
      exists df, s4. split; [| split; [done |]].
      * unfold read_csv. eapply bind_inr_intro; [exact L1 |].
        eapply bind_inr_intro; [exact L2 |].
        eapply bind_inr_intro; [exact L3 |]. exact L4.
      * rewrite L5, Hc2, Hc1, <- app_assoc. done.
    + by injection E1 as <- <-.
  - destruct (decide ("api" ∈ sources)).
    + apply bind_inr_inv in E2 as (u & s0 & L0 & E2).
      apply bind_inr_inv in E2 as (cfg & s1 & L1 & E2).
      apply bind_inr_inv in E2 as (url & s2 & L2 & E2).
      apply bind_inr_inv in E2 as (x & s3 & L3 & E2).
      apply bind_inr_inv in E2 as (df & s4 & L4 & E2).
      apply bind_inr_inv in E2 as (u' & s5 & L5 & E2).
      injection E2 as <- <-.
      apply logger_info_inv in L0 as [_ ->].
      pose proof L1 as [_ ->]%self_config_inv.
      pose proof L2 as ->%yaml_get_inv.
      pose proof L3 as Hc1%io_call_calls. pose proof L4 as Hc2%io_call_calls.
      apply logger_info_calls in L5.
      exists df, s4. split; [| split; [done |]].
      * unfold read_api. eapply bind_inr_intro; [exact L1 |].
        eapply bind_inr_intro; [exact L2 |].
        eapply bind_inr_intro; [exact L3 |]. exact L4.
      * rewrite L5, Hc2, Hc1, <- app_assoc. done.
    + by injection E2 as <- <-.
Qed.

Lemma extract_returns_calls (sources : list string) p d p' :
  extract sources p = (inr d, p') ->
  calls (host p') = calls (host p) ++ extract_calls sources.
Proof.
  intros H. apply extract_returns_inv in H as (d1 & q1 & q2 & H1 & H2 & ->).
  unfold extract_calls, requested_sources, recognized_sources. cbn.
  destruct (decide ("csv" ∈ sources)), (decide ("api" ∈ sources)); cbn.
  - destruct H1 as (_ & _ & _ & _ & H1), H2 as (_ & _ & _ & _ & H2).
    rewrite H2, H1, <- app_assoc. done.
  - destruct H1 as (_ & _ & _ & _ & H1), H2 as (_ & H2). by rewrite H2, H1.
  - destruct H1 as (_ & ->), H2 as (_ & _ & _ & _ & H2). by rewrite H2.
  - destruct H1 as (_ & ->), H2 as (_ & H2). by rewrite H2, app_nil_r.
Qed.

(** The keys of what [transform] returns, by the keys of what it is given. *)
Lemma transform_loop_keys rules items acc p d p' :
  NoDup (keys acc ++ keys items) ->
  transform_loop rules items acc p = (inr d, p') ->
  keys d = keys acc ++ keys items.
Proof.
  revert acc p. induction items as [|[source df] items IH]; intros acc p Hnd;
    cbn [transform_loop].
  - intros [= <- _]. unfold keys. by rewrite app_nil_r.
  - intros H. do 3 inv_bind H.
    change (keys ((source, df) :: items)) with (source :: keys items) in *.
    unfold DataFrame in *.
    assert (Hk : source ∉ keys acc).
    { apply NoDup_app in Hnd as (_ & Hdisj & _).
      intros Hin. apply (Hdisj source Hin). by left. }
    assert (Hset : keys (dict_set source a1 acc) = keys acc ++ [source]).
    { rewrite keys_dict_set.
      match goal with |- context [decide ?P] => by destruct (decide P) end. }
    apply IH in H.
    + by rewrite H, Hset, <- app_assoc.
    + by rewrite Hset, <- app_assoc.
Qed.

Lemma transform_returns_keys data rules p d p' :
  NoDup (keys data) ->
  transform data rules p = (inr d, p') ->
  keys d = keys data.
Proof.
  intros Hnd H. unfold transform in H. apply phase_inv in H.
  do 3 inv_bind H. injection H as <- _.
  by apply transform_loop_keys in E.
Qed.

Lemma transform_loop_calls_of rules items acc :
  calls_only (is_call_of PTransform) (transform_loop rules items acc).
Proof.
  revert acc. induction items as [|[source df] items IH]; intros acc; simpl;
    calls_steps.
Qed.

Lemma load_loop_calls_of loader mode items total :
  calls_only (is_call_of PLoad) (load_loop loader mode items total).
Proof.
  revert total. induction items as [|[source df] items IH]; intros total; simpl;
    calls_steps.
Qed.

Lemma extract_calls_of sources :
  calls_only (is_call_of PExtract) (extract sources).
Proof. unfold extract. calls_steps. Qed.

Lemma transform_calls_of data rules :
  calls_only (is_call_of PTransform) (transform data rules).
Proof. unfold transform. calls_steps. apply transform_loop_calls_of. Qed.

Lemma load_calls_of data mode : calls_only (is_call_of PLoad) (load data mode).
Proof. unfold load. calls_steps. apply load_loop_calls_of. Qed.

End Returns.

(** ** What a piece of code writes through the logger *)

Section Logs.
Context `{C : Collaborators}.

Lemma logs_only_same allowed {A} (m : M Proc A) :
  (forall p, logged (host (m p).2) = logged (host p)) -> logs_only allowed m.
Proof. intros H p. exists []. by rewrite app_nil_r. Qed.

Lemma logs_only_ret allowed {A} (a : A) : logs_only allowed (ret a).
Proof. by apply logs_only_same. Qed.

Lemma logs_only_raise allowed {A} e : logs_only allowed (@raise Proc A e).
Proof. by apply logs_only_same. Qed.

Lemma logs_only_now allowed : logs_only allowed (io now).
Proof.
  apply logs_only_same. intros p. unfold io, now. by destruct (clock _).
Qed.

Lemma logs_only_call allowed {A} ev (f : World -> (exn + A) * World) :
  logs_only allowed (io (call ev f)).
Proof.
  apply logs_only_same. intros p. unfold io, call. by destruct (f _).
Qed.

Lemma logs_only_self_config allowed : logs_only allowed self_config.
Proof. by apply logs_only_same. Qed.

Lemma logs_only_append allowed en : logs_only allowed (execution_log_append en).
Proof. by apply logs_only_same. Qed.

Lemma logs_only_yaml_get allowed cfg k : logs_only allowed (@yaml_get Proc cfg k).
Proof. apply logs_only_same. intros p. by destruct cfg. Qed.

Lemma logs_only_yaml_getitem allowed cfg k :
  logs_only allowed (@yaml_getitem Proc cfg k).
Proof.
  apply logs_only_same. intros p. destruct cfg; try done.
  simpl. by destruct (dict_get k m).
Qed.

Lemma logs_only_logger_info allowed m :
  allowed (INFO, m) = true -> logs_only allowed (io (logger_info m)).
Proof. intros H p. exists [(INFO, m)]. split; [done | by constructor]. Qed.

Lemma logs_only_bind allowed {A B} (m : M Proc A) (k : A -> M Proc B) :
  logs_only allowed m -> (forall a, logs_only allowed (k a)) ->
  logs_only allowed (bind m k).
Proof.
  intros Hm Hk p. unfold bind. destruct (Hm p) as (c1 & E1 & F1).
  destruct (m p) as [[e|a] p1]; simpl in *; [by exists c1 |].
  destruct (Hk a p1) as (c2 & E2 & F2). exists (c1 ++ c2).
  split; [by rewrite E2, E1, app_assoc | by apply Forall_app].
Qed.

End Logs.

Create HintDb logs.
#[global] Hint Resolve logs_only_ret logs_only_raise logs_only_now
  logs_only_call logs_only_self_config logs_only_append logs_only_yaml_get
  logs_only_yaml_getitem : logs.

Ltac logs_steps :=
  repeat first
    [ apply logs_only_bind; [| intros ?]
    | apply logs_only_logger_info; reflexivity
    | progress auto with logs
    | match goal with
      | |- logs_only _ (if ?b then _ else _) => destruct b
      | |- logs_only _ (match ?x with _ => _ end) => destruct x
      end ].

Section PhaseLogs.
Context `{C : Collaborators}.

Lemma transform_loop_logs rules items acc :
  logs_only is_info (transform_loop rules items acc).
Proof.
  revert acc. induction items as [|[source df] items IH]; intros acc; simpl;
    logs_steps.
Qed.

Lemma load_loop_logs loader mode items total :
  logs_only is_info (load_loop loader mode items total).
Proof.
  revert total. induction items as [|[source df] items IH]; intros total; simpl;
    logs_steps.
Qed.

(** A phase whose guarded block logs at INFO reports its failure. *)
Lemma phase_reports_failure {A} fase (start : message)
    (msg : string -> message) (body : M Proc A) :
  logs_only is_info body ->
  reports_failure msg
    (io (logger_info start) ;;
     try_except body
       (fun e =>
          io (logger_error (msg (str e))) ;;
          t <- io now ;;
          execution_log_append (error_entry fase t e) ;;
          raise e)).
Proof.
  intros Hbody p.
  match goal with |- context [(?m p).2] => destruct (m p) as [r p'] eqn:E end.
  cbn [fst snd]. apply phase_inv in E.
  destruct (Hbody (log_line INFO start p)) as (new & Hnew & Hinfo).
  destruct r as [e|a].
  - destruct E as (p1 & E & _ & Hl). rewrite E in Hnew. cbn in Hnew.
    destruct (is_Exception e).
    + exists ((INFO, start) :: new ++ [(ERROR, msg (str e))]). split.
      * rewrite Hl, Hnew, <- !app_assoc. done.
      * exists ((INFO, start) :: new). split; [done |]. by constructor.
    + exists ((INFO, start) :: new). split.
      * rewrite Hl, Hnew, app_nil_r, <- !app_assoc. done.
      * by constructor.
  - rewrite E in Hnew. cbn in Hnew.
    exists ((INFO, start) :: new). split.
    + rewrite Hnew, <- app_assoc. done.
    + by constructor.
Qed.

Lemma extract_reports_failure sources :
  reports_failure MsgErroExtracao (extract sources).
Proof.
  unfold extract. apply (phase_reports_failure "extract"). logs_steps.
Qed.

Lemma transform_reports_failure data rules :
  reports_failure MsgErroTransformacao (transform data rules).
Proof.
  unfold transform. apply (phase_reports_failure "transform"). logs_steps.
  apply transform_loop_logs.
Qed.

Lemma load_reports_failure data mode :
  reports_failure MsgErroCarga (load data mode).
Proof.
  unfold load. apply (phase_reports_failure "load"). logs_steps.
  apply load_loop_logs.
Qed.

End PhaseLogs.

(** ** The calls and the logger records of a whole run *)

Section RunTraces.
Context `{C : Collaborators}.

Lemma load_returns_calls data mode p u p' :
  load data mode p = (inr u, p') ->
  calls (host p') = calls (host p) ++ load_calls (length data).
Proof.
  unfold load. intros E. apply phase_inv in E.
  do 7 inv_bind E. injection E as _ <-.
  apply self_config_inv in E0 as [_ ->].
  apply yaml_getitem_inv in E1 as [-> _].
  apply io_call_calls in E2. apply load_loop_returns_calls in E3.
  apply logger_info_calls in E4. apply now_inv in E5 as (_ & _ & _ & E5 & _).
  apply append_inv in E6 as (_ & E6 & _).
  rewrite E6, E5, E4, E3, E2, <- app_assoc. done.
Qed.

Lemma load_raises_calls data mode p e p' :
  load data mode p = (inl e, p') ->
  calls (host p') = calls (host p) \/
  exists k, (k <= length data)%nat /\
    calls (host p') = calls (host p) ++ load_calls k.
Proof.
  unfold load. intros E. apply phase_inv in E.
  destruct E as (p1 & E & -> & _).
  apply bind_inl_inv in E as [E | (cfg & q1 & E1 & E)]; [done |].
  apply self_config_inv in E1 as [_ ->].
  apply bind_inl_inv in E as [E | (db & q2 & E2 & E)].
  { apply yaml_getitem_inv in E as [-> _]. by left. }
  apply yaml_getitem_inv in E2 as [-> _].
  apply bind_inl_inv in E as [E | (loader & q3 & E3 & E)].
  { apply io_call_calls in E. right. exists 0%nat. split; [lia | done]. }
  apply io_call_calls in E3.
  apply bind_inl_inv in E as [E | (total & q4 & E4 & E)].
  { apply load_loop_raises_calls in E as (k & Hk & E).
    right. exists k. split; [lia |]. rewrite E, E3, <- app_assoc. done. }
  exfalso.
  apply bind_inl_inv in E as [E | (? & q5 & _ & E)]; [done |].
  apply bind_inl_inv in E as [E | (t & q6 & _ & E)].
  { by apply now_inv in E as (? & ? & _). }
  apply bind_inl_inv in E as [E | (? & q7 & _ & E)]; done.
Qed.

Lemma run_entry_calls p : calls (host (run_entry p).2) = calls (host p).
Proof. unfold run_entry. by destruct (clock _). Qed.

Lemma run_done_calls t q : calls (host (run_done t q)) = calls (host q).
Proof. unfold run_done. by destruct (clock _). Qed.

Lemma run_done_logged t q :
  exists t',
    logged (host (run_done t q)) =
      logged (host q) ++
        [(INFO, MsgSeparador); (INFO, MsgPipelineConcluido);
         (INFO, MsgTempoExecucao t t'); (INFO, MsgSeparador)].
Proof. unfold run_done. destruct (clock _) as [t' w]. by exists t'. Qed.

Lemma requested_sources_keys (sources : list string) p d p' :
  extract sources p = (inr d, p') ->
  keys d = requested_sources sources /\
  NoDup (keys d) /\
  length d = length (requested_sources sources).
Proof.
  intros H. apply extract_returns_keys in H. unfold requested_sources.
  split; [done |]. split.
  - rewrite H. apply NoDup_filter. by apply (bool_decide_unpack _).
  - unfold keys in H. by rewrite <- (length_fmap fst d), H.
Qed.

(** The collaborator calls of a run that returns. *)
Lemma run_returns_calls sources rules mode p p' :
  run sources rules mode p = (inr tt, p') ->
  let n := length (requested_sources sources) in
  calls (host p') =
    calls (host p) ++ extract_calls sources ++ transform_calls rules n ++
      load_calls n.
Proof.
  rewrite run_eq.
  destruct (extract _ _) as [[e1|d] p1] eqn:E1; [done |].
  destruct (transform _ _ _) as [[e2|d'] p2] eqn:E2; [done |].
  destruct (load _ _ _) as [[e3|u] p3] eqn:E3; [done |].
  intros [= <-]. cbn zeta.
  pose proof (requested_sources_keys _ _ _ _ E1) as (Hk & Hnd & Hlen).
  pose proof (transform_returns_keys _ _ _ _ _ Hnd E2) as Hk'.
  assert (Hlen' : length d' = length d).
  { unfold keys in Hk'.
    by rewrite <- (length_fmap fst d'), Hk', length_fmap. }
  apply extract_returns_calls in E1. rewrite run_entry_calls in E1.
  rewrite transform_refines in E2. apply transform_spec_calls in E2.
  apply load_returns_calls in E3.
  rewrite run_done_calls, E3, E2, E1, Hlen', Hlen, <- !app_assoc. done.
Qed.

Lemma is_call_of_upto (Q P : phase) ev :
  (phase_index Q <= phase_index P)%nat ->
  is_call_of Q ev = true -> is_call_upto P ev = true.
Proof.
  unfold is_call_of, is_call_upto. destruct (phase_of_call ev) as [R|]; [| done].
  intros Hle HQ. apply bool_decide_eq_true in HQ. apply bool_decide_eq_true.
  lia.
Qed.

Lemma calls_only_upto (Q P : phase) {A} (m : M Proc A) p :
  (phase_index Q <= phase_index P)%nat ->
  calls_only (is_call_of Q) m ->
  exists cs, calls (host (m p).2) = calls (host p) ++ cs /\
             Forall (fun ev => is_call_upto P ev = true) cs.
Proof.
  intros Hle Hm. destruct (Hm p) as (cs & E & F). exists cs. split; [done |].
  eapply Forall_impl; [exact F |]. intros ev. by apply is_call_of_upto.
Qed.

(** When a run fails during a phase, no collaborator of a later phase has
    been called. *)
Lemma run_fails_calls P sources rules mode p e :
  fails_during P sources rules mode p e ->
  exists cs,
    calls (host (run sources rules mode p).2) = calls (host p) ++ cs /\
    Forall (fun ev => is_call_upto P ev = true) cs.
Proof.
  intros H. rewrite run_eq. destruct P; simpl in H.
  - destruct H as (p1 & E1). rewrite E1. cbn.
    destruct (calls_only_upto PExtract PExtract (extract sources)
                (run_entry p).2) as (c1 & H1 & F1);
      [done | apply extract_calls_of |].
    rewrite E1 in H1. cbn in H1. rewrite run_entry_calls in H1.
    rewrite run_failed_calls. by exists c1.
  - destruct H as (d & p1 & p2 & E1 & E2). rewrite E1, E2. cbn.
    destruct (calls_only_upto PExtract PTransform (extract sources)
                (run_entry p).2) as (c1 & H1 & F1);
      [cbn; lia | apply extract_calls_of |].
    destruct (calls_only_upto PTransform PTransform (transform d rules) p1)
      as (c2 & H2 & F2); [done | apply transform_calls_of |].
    rewrite E1 in H1. rewrite E2 in H2. cbn in H1, H2.
    rewrite run_entry_calls in H1. rewrite run_failed_calls. exists (c1 ++ c2).
    split; [by rewrite H2, H1, app_assoc | by apply Forall_app].
  - destruct H as (d & p1 & d' & p2 & p3 & E1 & E2 & E3).
    rewrite E1, E2, E3. cbn.
    destruct (calls_only_upto PExtract PLoad (extract sources)
                (run_entry p).2) as (c1 & H1 & F1);
      [cbn; lia | apply extract_calls_of |].
    destruct (calls_only_upto PTransform PLoad (transform d rules) p1)
      as (c2 & H2 & F2); [cbn; lia | apply transform_calls_of |].
    destruct (calls_only_upto PLoad PLoad (load d' mode) p2)
      as (c3 & H3 & F3); [done | apply load_calls_of |].
    rewrite E1 in H1. rewrite E2 in H2. rewrite E3 in H3. cbn in H1, H2, H3.
    rewrite run_entry_calls in H1. rewrite run_failed_calls.
    exists (c1 ++ c2 ++ c3).
    split; [by rewrite H3, H2, H1, <- !app_assoc |].
    apply Forall_app. split; [done |]. by apply Forall_app.
Qed.

(** What a call of [run] writes through the logger, by level. *)
Lemma run_log_levels sources rules mode p :
  exists new,
    logged (host (run sources rules mode p).2) = logged (host p) ++ new /\
    match (run sources rules mode p).1 with
    | inr _ => Forall (fun r => is_info r = true) new
    | inl e =>
        if is_Exception e then
          exists pre msg,
            new = pre ++ [(ERROR, msg); (ERROR, MsgSeparador);
                          (ERROR, MsgPipelineFalhou (str e));
                          (ERROR, MsgSeparador)] /\
            Forall (fun r => is_info r = true) pre /\
            msg ∈ [MsgErroExtracao (str e); MsgErroTransformacao (str e);
                   MsgErroCarga (str e)]
        else Forall (fun r => is_info r = true) new
    end.
Proof.
  rewrite run_eq. pose proof (run_entry_logged p) as L0.
  set (p0 := (run_entry p).2) in *.
  assert (F0 : Forall (fun r => is_info r = true)
                 [(INFO, MsgSeparador); (INFO, MsgIniciandoPipeline);
                  (INFO, MsgSeparador)]) by (by repeat constructor).
  destruct (extract_reports_failure sources p0) as (n1 & L1 & H1).
  destruct (extract sources p0) as [[e|d] p1]; cbn [fst snd] in *.
  { eexists. split.
    { rewrite run_failed_logged_eq, L1, L0, <- !app_assoc. reflexivity. }
    destruct (is_Exception e).
    - destruct H1 as (pre & -> & F).
      exists ([(INFO, MsgSeparador); (INFO, MsgIniciandoPipeline);
               (INFO, MsgSeparador)] ++ pre), (MsgErroExtracao (str e)).
      split; [by rewrite <- !app_assoc |]. split.
      + by apply Forall_app.
      + by left.
    - rewrite app_nil_r. by apply Forall_app. }
  destruct (transform_reports_failure d rules p1) as (n2 & L2 & H2).
  destruct (transform d rules p1) as [[e|d'] p2]; cbn [fst snd] in *.
  { eexists. split.
    { rewrite run_failed_logged_eq, L2, L1, L0, <- !app_assoc. reflexivity. }
    destruct (is_Exception e).
    - destruct H2 as (pre & -> & F).
      exists ([(INFO, MsgSeparador); (INFO, MsgIniciandoPipeline);
               (INFO, MsgSeparador)] ++ n1 ++ pre),
        (MsgErroTransformacao (str e)).
      split; [by rewrite <- !app_assoc |]. split.
      + apply Forall_app. split; [done |]. by apply Forall_app.
      + right. by left.
    - rewrite app_nil_r. apply Forall_app. split; [done |].
      by apply Forall_app. }
  destruct (load_reports_failure d' mode p2) as (n3 & L3 & H3).
  destruct (load d' mode p2) as [[e|u] p3]; cbn [fst snd] in *.
  { eexists. split.
    { rewrite run_failed_logged_eq, L3, L2, L1, L0, <- !app_assoc.
      reflexivity. }
    destruct (is_Exception e).
    - destruct H3 as (pre & -> & F).
      exists ([(INFO, MsgSeparador); (INFO, MsgIniciandoPipeline);
               (INFO, MsgSeparador)] ++ n1 ++ n2 ++ pre),
        (MsgErroCarga (str e)).
      split; [by rewrite <- !app_assoc |]. split.
      + apply Forall_app. split; [done |].
        apply Forall_app. split; [done |]. by apply Forall_app.
      + right. right. by left.
    - rewrite app_nil_r. apply Forall_app. split; [done |].
      apply Forall_app. split; [done |]. by apply Forall_app. }
  destruct (run_done_logged (run_entry p).1 p3) as (t' & L4).
  eexists. split; [rewrite L4, L3, L2, L1, L0, <- !app_assoc; reflexivity |].
  apply Forall_app. split; [done |].
  apply Forall_app. split; [done |].
  apply Forall_app. split; [done |].
  apply Forall_app. split; [done | by repeat constructor].
Qed.

End RunTraces.

(** ** The total of load *)

Section MoreSteps.
Context `{C : Collaborators}.

Lemma bind_logger_info {B} m (k : unit -> M Proc B) p :
  bind (io (logger_info m)) k p = k tt (log_line INFO m p).
Proof. done. Qed.

Lemma try_except_inr {A} (m : M Proc A) (h : exn -> M Proc A) s a s' :
  m s = (inr a, s') -> try_except m h s = (inr a, s').
Proof. intros H. unfold try_except. by rewrite H. Qed.

Lemma load_loop_total_sum loader mode items total p ns :
  loader_counts loader mode (values items) (world (host p)) = inr ns ->
  exists p',
    load_loop loader mode items total p = (inr (total + foldr Z.add 0 ns), p') /\
    self p' = self p.
Proof.
  revert total p ns. induction items as [|[source df] items IH];
    intros total p ns; cbn [load_loop].
  - intros [= <-]. exists p. cbn. by rewrite Z.add_0_r.
  - change (values ((source, df) :: items)) with (df :: values items).
    cbn [loader_counts].
    destruct (DatabaseLoader_load loader df mode (world (host p)))
      as [[e|n] w'] eqn:El; [done |].
    destruct (loader_counts loader mode (values items) w') as [e|ns'] eqn:Ec;
      [done |].
    intros [= <-].
    unfold bind at 1. unfold io at 1. unfold logger_info at 1. cbn.
    unfold bind at 1. unfold io at 1. unfold call at 1. cbn. rewrite El. cbn.
    match goal with
    | |- context [load_loop _ _ _ ?tot ?q] =>
        destruct (IH tot q ns' Ec) as (p' & E & Hs)
    end.
    exists p'. rewrite E. split; [| done]. do 2 f_equal. lia.
Qed.

End MoreSteps.

(** ** What extract gives, by what the extractors give *)

Section ExtractResult.
Context `{C : Collaborators}.

Lemma sum_len_records_in (d : dict DataFrame) : sum_len d = records_in d.
Proof.
  unfold sum_len, records_in. induction (values d) as [|df l IH]; [done |].
  cbn [foldl concat]. rewrite sum_len_from, IH, length_app. unfold len. lia.
Qed.

(** A handler that raises the exception again changes the state, not the
    outcome. *)
Lemma try_reraise_fst {A} (body : M Proc A) (h : exn -> M Proc A) q :
  (forall e s, (h e s).1 = inl e) -> (try_except body h q).1 = (body q).1.
Proof.
  intros Hh. unfold try_except. destruct (body q) as [[e|a] q']; [| done].
  destruct (is_Exception e); [apply Hh | done].
Qed.

Lemma source_records_csv (m : dict yaml) (w : World) :
  source_records "csv" m w =
    match CSVExtractor_new (default YNull (dict_get "csv_path" m)) w with
    | (inl e, w') => (inl e, w')
    | (inr extractor, w') => CSVExtractor_extract extractor w'
    end.
Proof.
  unfold source_records. destruct (decide _) as [_|Hn]; [done | by destruct Hn].
Qed.

Lemma source_records_api (m : dict yaml) (w : World) :
  source_records "api" m w =
    match APIExtractor_new (default YNull (dict_get "api_url" m)) w with
    | (inl e, w') => (inl e, w')
    | (inr extractor, w') => APIExtractor_extract extractor w'
    end.
Proof. unfold source_records. by destruct (decide _). Qed.

(** With a configuration that is a mapping, [extract] returns or raises
    as reading the requested recognized sources does. *)
Lemma extract_result (sources : list string) (p : Proc) (m : dict yaml) :
  config (self p) = YMap m ->
  (extract sources p).1 =
    (read_sources (requested_sources sources) m (world (host p))).1.
Proof.
  destruct p as [[cfg log] h]. cbn. intros ->.
  unfold extract, requested_sources, recognized_sources. cbn.
  rewrite try_reraise_fst.
  2:{ intros e s. unfold bind, io, logger_error, now, execution_log_append,
        raise. cbn. by destruct (clock _). }
  destruct (decide ("csv" ∈ sources)), (decide ("api" ∈ sources));
    cbn [read_sources];
    rewrite ?source_records_csv, ?source_records_api;
    unfold bind, io, call, logger_info, self_config, yaml_get, now,
      execution_log_append, ret; cbn.
  - destruct (CSVExtractor_new _ _) as [[e1|x1] w1]; cbn; [done |].
    destruct (CSVExtractor_extract _ _) as [[e1|df1] w2]; cbn; [done |].
    rewrite source_records_api.
    destruct (APIExtractor_new _ _) as [[e1|x2] w3]; cbn; [done |].
    destruct (APIExtractor_extract _ _) as [[e1|df2] w4]; cbn; [done |].
    destruct (clock _). cbn. by destruct (decide ("api" = "csv")).
  - destruct (CSVExtractor_new _ _) as [[e1|x1] w1]; cbn; [done |].
    destruct (CSVExtractor_extract _ _) as [[e1|df1] w2]; cbn; [done |].
    by destruct (clock _).
  - destruct (APIExtractor_new _ _) as [[e1|x2] w3]; cbn; [done |].
    destruct (APIExtractor_extract _ _) as [[e1|df2] w4]; cbn; [done |].
    by destruct (clock _).
  - by destruct (clock _).
Qed.

End ExtractResult.

(** * Part 4: the properties *)

(** ** Failure of a run *)

Section RunFailure.
Context `{C : Collaborators}.

(** C1 (amended). If [run] fails during phase P, the exception reaches the
    caller and this call of [run] added no entry for a phase after P. When
    the exception is an instance of [Exception], it has been written
    through the logger, and the entries this call added to the execution
    log contain exactly one entry for P: an error entry with the text of
    the exception. When it is not (KeyboardInterrupt, SystemExit), no
    handler runs: this call added no entry for P and logged nothing at
    level ERROR. *)
Theorem run_failure_log (P : phase) (sources rules : list string)
    (mode : string) (p : Proc) (e : exn) :
  fails_during P sources rules mode p e ->
  exists p' new added,
    run sources rules mode p = (inl e, p') /\
    execution_log (self p') = execution_log (self p) ++ new /\
    logged (host p') = logged (host p) ++ added /\
    (forall Q, (phase_index P < phase_index Q)%nat ->
               entries_of (phase_name Q) new = []) /\
    if is_Exception e then
      (ERROR, MsgPipelineFalhou (str e)) ∈ added /\
      exists en,
        entries_of (phase_name P) new = [en] /\
        is_error_entry (phase_name P) (str e) en
    else
      entries_of (phase_name P) new = [] /\
      Forall (fun r => is_info r = true) added.
Proof.
  intros H.
  destruct (run_log_levels sources rules mode p) as (added & Hadd & Hlev).
  assert (Hin : forall pre msg,
            (ERROR, MsgPipelineFalhou (str e)) ∈
              pre ++ [(ERROR, msg); (ERROR, MsgSeparador);
                      (ERROR, MsgPipelineFalhou (str e));
                      (ERROR, MsgSeparador)]).
  { intros pre msg. apply elem_of_app. right.
    apply elem_of_cons. right. apply elem_of_cons. right.
    apply elem_of_cons. by left. }
  revert Hadd Hlev. rewrite run_eq. destruct P; simpl in H.
  - destruct H as (p1 & E1). rewrite E1. cbn [fst snd]. intros Hadd Hlev.
    apply extract_post in E1 as (_ & _ & L1).
    rewrite run_entry_self in L1.
    destruct (is_Exception e).
    + destruct L1 as (t & L1), Hlev as (pre & msg & -> & _).
      exists (run_failed e p1), [error_entry "extract" t e]. eexists.
      rewrite run_failed_self.
      split; [done |]. split; [done |]. split; [done |].
      split; [intros [] ?; simpl in *; first [lia | reflexivity] |].
      split; [apply Hin |].
      exists (error_entry "extract" t e).
      split; [reflexivity | apply error_entry_is].
    + exists (run_failed e p1), [], added.
      rewrite run_failed_self, app_nil_r.
      split; [done |]. split; [done |]. split; [done |].
      split; [by intros [] ? |]. by split.
  - destruct H as (d & p1 & p2 & E1 & E2). rewrite E1, E2. cbn [fst snd].
    intros Hadd Hlev.
    apply extract_post in E1 as (_ & _ & t1 & n1 & L1 & _).
    apply transform_post in E2 as (_ & _ & L2).
    rewrite run_entry_self in L1. rewrite L1 in L2.
    destruct (is_Exception e).
    + destruct L2 as (t & L2), Hlev as (pre & msg & -> & _).
      rewrite <- app_assoc in L2.
      exists (run_failed e p2),
        [success_entry "extract" t1 n1; error_entry "transform" t e].
      eexists. rewrite run_failed_self.
      split; [done |]. split; [done |]. split; [done |].
      split; [intros [] ?; simpl in *; first [lia | reflexivity] |].
      split; [apply Hin |].
      exists (error_entry "transform" t e).
      split; [reflexivity | apply error_entry_is].
    + exists (run_failed e p2), [success_entry "extract" t1 n1], added.
      rewrite run_failed_self.
      split; [done |]. split; [done |]. split; [done |].
      split; [intros [] ?; simpl in *; first [lia | reflexivity] |].
      by split.
  - destruct H as (d & p1 & d' & p2 & p3 & E1 & E2 & E3).
    rewrite E1, E2, E3. cbn [fst snd]. intros Hadd Hlev.
    apply extract_post in E1 as (_ & _ & t1 & n1 & L1 & _).
    apply transform_post in E2 as (_ & _ & t2 & n2 & L2 & _).
    apply load_post in E3 as (_ & _ & L3).
    rewrite run_entry_self in L1. rewrite L1, <- app_assoc in L2.
    rewrite L2 in L3.
    destruct (is_Exception e).
    + destruct L3 as (t & L3), Hlev as (pre & msg & -> & _).
      rewrite <- app_assoc in L3.
      exists (run_failed e p3),
        [success_entry "extract" t1 n1; success_entry "transform" t2 n2;
         error_entry "load" t e].
      eexists. rewrite run_failed_self.
      split; [done |]. split; [done |]. split; [done |].
      split; [intros [] ?; simpl in *; first [lia | reflexivity] |].
      split; [apply Hin |].
      exists (error_entry "load" t e).
      split; [reflexivity | apply error_entry_is].
    + exists (run_failed e p3),
        [success_entry "extract" t1 n1; success_entry "transform" t2 n2],
        added.
      rewrite run_failed_self.
      split; [done |]. split; [done |]. split; [done |].
      split; [intros [] ?; simpl in *; first [lia | reflexivity] |].
      by split.
Qed.

End RunFailure.

(** [run] on a CSV file with a null row and validation without cleaning:
    extraction returns, the validator raises a ValueError, and the log
    gets a success entry for extract and one error entry for transform. *)
Lemma run_failure_log_witness :
  let e := Exn "ValueError" "null row" in
  fails_during PTransform ["csv"] ["validate"] "incremental" Demo.p0 e /\
  exists p' new added,
    run ["csv"] ["validate"] "incremental" Demo.p0 = (inl e, p') /\
    execution_log (self p') = execution_log (self Demo.p0) ++ new /\
    logged (host p') = logged (host Demo.p0) ++ added /\
    (forall Q, (phase_index PTransform < phase_index Q)%nat ->
               entries_of (phase_name Q) new = []) /\
    (ERROR, MsgPipelineFalhou "null row") ∈ added /\
    exists en,
      entries_of "transform" new = [en] /\
      is_error_entry "transform" "null row" en.
Proof.
  assert (H : fails_during PTransform ["csv"] ["validate"] "incremental"
                Demo.p0 (Exn "ValueError" "null row")).
  { simpl. eexists _, _, _. split; vm_compute; reflexivity. }
  split; [exact H |].
  exact (run_failure_log PTransform ["csv"] ["validate"] "incremental"
           Demo.p0 (Exn "ValueError" "null row") H).
Defined.

(** C1 as the specification has it fails: the program is interrupted
    (Ctrl-C) while the API request of [extract] is pending. The run fails
    during extract, the KeyboardInterrupt reaches the caller, and the
    execution log has no entry for extract, nor any other; nothing was
    logged at level ERROR. *)
Lemma run_interrupted_leaves_no_entry :
  let e := BaseExn "KeyboardInterrupt" "" in
  let r := run ["api"] ["clean"] "full" Demo.p2 in
  fails_during PExtract ["api"] ["clean"] "full" Demo.p2 e /\
  r.1 = inl e /\
  execution_log (self r.2) = [] /\
  entries_of "extract" (execution_log (self r.2)) = [] /\
  Forall (fun rec => is_info rec = true) (logged (host r.2)).
Proof.
  split; [| split; [| split; [| split]]].
  - simpl. eexists. vm_compute. reflexivity.
  - vm_compute. reflexivity.
  - vm_compute. reflexivity.
  - vm_compute. reflexivity.
  - vm_compute. by repeat constructor.
Qed.

(** ** The sources extract reads *)

Section ExtractKeys.
Context `{C : Collaborators}.


End ExtractKeys.


(** ** Success of a run *)

Section RunSuccess.
Context `{C : Collaborators}.

(** C3. When [run] returns, and the loader returns counts, this call of
    [run] added exactly three entries to the execution log: entries with
    status "success" for extract, transform and load, in this order, each
    with a record count that is not negative; and the execution time is written
    through the logger exactly by the calls of [run] that return, never by
    a call of [run] that raises nor by a phase call on its own. *)
Theorem run_success_log (sources rules : list string) (mode : string)
    (p p' : Proc) :
  loader_returns_counts ->
  run sources rules mode p = (inr tt, p') ->
  (exists en1 en2 en3 n1 n2 n3,
     execution_log (self p') = execution_log (self p) ++ [en1; en2; en3] /\
     is_success_entry "extract" n1 en1 /\
     is_success_entry "transform" n2 en2 /\
     is_success_entry "load" n3 en3 /\
     0 <= n1 /\ 0 <= n2 /\ 0 <= n3) /\
  (forall S R m q new,
     logged (host (run S R m q).2) = logged (host q) ++ new ->
     duration_records new <> [] <-> exists u, (run S R m q).1 = inr u) /\
  (forall S R m (d : dict DataFrame) q new,
     logged (host (extract S q).2) = logged (host q) ++ new \/
     logged (host (transform d R q).2) = logged (host q) ++ new \/
     logged (host (load d m q).2) = logged (host q) ++ new ->
     duration_records new = []).
Proof.
  intros Hc Hrun. split; [| split].
  - rewrite run_eq in Hrun.
    destruct (extract _ _) as [[e1|d] p1] eqn:E1; [done |].
    destruct (transform _ _ _) as [[e2|d'] p2] eqn:E2; [done |].
    destruct (load _ _ _) as [[e3|u] p3] eqn:E3; [done |].
    injection Hrun as <-.
    apply extract_post in E1 as (_ & _ & t1 & n1 & L1 & ->).
    apply transform_post in E2 as (_ & _ & t2 & n2 & L2 & ->).
    apply load_post in E3 as (_ & _ & t3 & n3 & L3 & H3).
    rewrite run_entry_self in L1. rewrite L1, <- app_assoc in L2.
    rewrite L2, <- app_assoc in L3. rewrite run_done_self.
    exists (success_entry "extract" t1 (sum_len d)),
      (success_entry "transform" t2 (sum_len d')),
      (success_entry "load" t3 n3), (sum_len d), (sum_len d'), n3.
    split; [done |]. repeat (split; [apply success_entry_is |]).
    auto using sum_len_nonneg.
  - intros S R m q new Hnew.
    destruct (run_logged S R m q) as (new' & Hnew' & Hd).
    rewrite Hnew in Hnew'. apply app_inv_head in Hnew' as <-.
    destruct ((run S R m q).1) as [e|u].
    + rewrite Hd. split; [done | by intros [? ?]].
    + destruct Hd as (t0 & t1 & ->). split; [by exists u | done].
  - intros S R m d q new [Hnew | [Hnew | Hnew]].
    + destruct (phase_logged "extract" (fun d n => n = sum_len d) (extract S) q) as (new' & Hnew' & Hd).
      { intros r q'. apply extract_post. }
      rewrite Hnew in Hnew'. by apply app_inv_head in Hnew' as <-.
    + destruct (phase_logged "transform" (fun d n => n = sum_len d)
                  (transform d R) q) as (new' & Hnew' & Hd).
      { intros r q'. apply transform_post. }
      rewrite Hnew in Hnew'. by apply app_inv_head in Hnew' as <-.
    + destruct (phase_logged "load"
                  (fun _ n => loader_returns_counts -> 0 <= n) (load d m) q) as (new' & Hnew' & Hd).
      { intros r q'. apply load_post. }
      rewrite Hnew in Hnew'. by apply app_inv_head in Hnew' as <-.
Qed.

End RunSuccess.

(** A run over the CSV file with cleaning and validation returns. *)
Lemma run_success_log_witness :
  loader_returns_counts (C := Demo.collaborators) /\
  run ["csv"] ["clean"; "validate"] "incremental" Demo.p0 =
    (inr tt, (run ["csv"] ["clean"; "validate"] "incremental" Demo.p0).2) /\
  exists en1 en2 en3 n1 n2 n3,
    execution_log
      (self (run ["csv"] ["clean"; "validate"] "incremental" Demo.p0).2) =
      execution_log (self Demo.p0) ++ [en1; en2; en3] /\
    is_success_entry "extract" n1 en1 /\
    is_success_entry "transform" n2 en2 /\
    is_success_entry "load" n3 en3 /\
    0 <= n1 /\ 0 <= n2 /\ 0 <= n3.
Proof.
  assert (Hc : loader_returns_counts (C := Demo.collaborators)).
  { intros l df mode w n w' H. simpl in H. unfold Demo.db_load in H.
    injection H as <- _. lia. }
  assert (Hr : run ["csv"] ["clean"; "validate"] "incremental" Demo.p0 =
                 (inr tt,
                  (run ["csv"] ["clean"; "validate"] "incremental" Demo.p0).2)).
  { vm_compute. reflexivity. }
  split; [exact Hc |]. split; [exact Hr |].
  exact (proj1 (run_success_log ["csv"] ["clean"; "validate"] "incremental"
                  Demo.p0 _ Hc Hr)).
Defined.

(** ** One entry per phase call *)

Section PhaseEntries.
Context `{C : Collaborators}.

(** C4 (amended). Every call of [extract], [transform] or [load] that
    returns, or that raises an instance of [Exception], appends exactly one
    entry to the execution log; the entry has a record count exactly when
    its status is success and an error text exactly when its status is
    error. A call that is left by an exception that is not an instance of
    [Exception] (KeyboardInterrupt, SystemExit) appends no entry. In every
    case the entries already in the log are neither changed nor removed. *)
Theorem phase_call_appends_one_entry
    (sources rules : list string) (data : dict DataFrame) (mode : string) :
  appends_one_entry "extract" (extract sources) /\
  appends_one_entry "transform" (transform data rules) /\
  appends_one_entry "load" (load data mode).
Proof.
  split; [| split].
  - eapply phase_post_appends. intros p r p'. apply extract_post.
  - eapply phase_post_appends. intros p r p'. apply transform_post.
  - eapply phase_post_appends. intros p r p'. apply load_post.
Qed.

End PhaseEntries.

(** C4 as the specification has it fails: a call of [extract] that is
    interrupted (Ctrl-C) while the API request is pending raises and
    leaves the execution log as it was, without an entry for the call. *)
Lemma interrupted_extract_appends_nothing :
  let r := extract ["api"] Demo.p2 in
  r.1 = inl (BaseExn "KeyboardInterrupt" "") /\
  execution_log (self r.2) = execution_log (self Demo.p2) /\
  ~ (exists en,
       execution_log (self r.2) = execution_log (self Demo.p2) ++ [en]).
Proof.
  split; [vm_compute; reflexivity |]. split; [vm_compute; reflexivity |].
  intros (en & H). vm_compute in H. discriminate H.
Qed.

(** ** Construction *)

Section Construction.
Context `{C : Collaborators}.

(** C5 (amended). The constructor fails exactly when the configuration file
    cannot be opened or the YAML parser raises, and then with that very
    exception, not wrapped; whatever the parser returns is accepted as the
    configuration, whether or not it has any key; and on success the
    configuration is the parsed value, the execution log is empty and the
    logger got the start-up line. *)
Theorem init_outcome (config_path : string) (h : Host) :
  match open_read config_path (world h) with
  | (inl e, w) =>
      __init__ config_path h =
        (inl e, mkHost w (logged h) (calls h ++ [OpenConfig]))
  | (inr text, w) =>
      match safe_load text with
      | inl e =>
          __init__ config_path h =
            (inl e, mkHost w (logged h) (calls h ++ [OpenConfig; SafeLoad]))
      | inr cfg =>
          __init__ config_path h =
            (inr (mkPipeline cfg []),
             mkHost w (logged h ++ [(INFO, MsgInicializado)])
                    (calls h ++ [OpenConfig; SafeLoad]))
      end
  end.
Proof.
  unfold __init__, _load_config, bind, open_, yaml_safe_load, call, ret,
    logger_info.
  destruct (open_read config_path (world h)) as [[e|text] w]; simpl; [done |].
  destruct (safe_load text) as [e|cfg]; simpl; by rewrite <- app_assoc.
Qed.

End Construction.

(** C5 as the specification has it fails: the file config/nokeys.yaml holds
    the empty mapping, which has none of the keys the phases read
    (csv_path, api_url, database), and the constructor returns an object
    for it instead of raising. *)
Lemma init_accepts_missing_keys :
  let cfg := YMap [] in
  (_load_config "config/nokeys.yaml" Demo.h0).1 = inr cfg /\
  Forall (fun k => yaml_getitem (S := Proc) cfg k Demo.p0 =
                     (inl (Exn "KeyError" ("'" +:+ k +:+ "'")), Demo.p0))
         ["csv_path"; "api_url"; "database"] /\
  ~ (exists e h', __init__ "config/nokeys.yaml" Demo.h0 = (inl e, h')) /\
  (__init__ "config/nokeys.yaml" Demo.h0).1 = inr (mkPipeline cfg []).
Proof.
  split; [reflexivity |]. split; [by repeat constructor |].
  split; [| reflexivity].
  intros (e & h' & H). vm_compute in H. discriminate H.
Qed.

(** ** The rules transform applies *)

Section TransformRules.
Context `{C : Collaborators}.

(** C6. [transform] is the transformation the specification words: for
    each source it applies exactly the requested rules among "clean" and
    "validate", "clean" first when both are requested. Identifiers other
    than these two are ignored; a transformation that returns has called,
    for each source in turn, the collaborators of exactly these rules in
    this order; and with "validate" but not "clean" the only rule applied
    is "validate", on the records as they were given. *)
Theorem transform_applies_requested_rules
    (data : dict DataFrame) (rules : list string) (p : Proc) :
  transform data rules p = transform_spec data rules p /\
  transform data rules p = transform data (requested_rules rules) p /\
  (forall d p',
     transform data rules p = (inr d, p') ->
     calls (host p') = calls (host p) ++ transform_calls rules (length data)) /\
  ("clean" ∈ rules -> "validate" ∈ rules ->
   requested_rules rules = ["clean"; "validate"]) /\
  ("validate" ∈ rules -> "clean" ∉ rules ->
   requested_rules rules = ["validate"] /\
   forall df q, apply_rules (requested_rules rules) df q = validate_rule df q).
Proof.
  split; [apply transform_refines |]. split; [| split; [| split]].
  - apply transform_ext; rewrite requested_rules_mem; unfold rule_priority;
      split; try tauto; intros H; (split; [done |]).
    + by left.
    + right. by left.
  - intros d p'. rewrite transform_refines. apply transform_spec_calls.
  - intros Hc Hv. rewrite requested_rules_eq.
    by destruct (decide ("clean" ∈ rules)), (decide ("validate" ∈ rules)).
  - intros Hv Hc.
    assert (E : requested_rules rules = ["validate"]).
    { rewrite requested_rules_eq.
      by destruct (decide ("clean" ∈ rules)), (decide ("validate" ∈ rules)). }
    split; [done |]. intros df q. rewrite E. cbn [apply_rules].
    apply bind_ret_r.
Qed.

End TransformRules.

(** ** Snapshots of the execution log *)

Section Snapshots.
Context `{C : Collaborators}.

(** C7. [get_execution_log] returns the entries accumulated so far and
    changes nothing, so two calls with no phase call in between return equal
    sequences; and the log is never cleared: whatever calls are made on the
    object in between, what an earlier call returned is a prefix of what a
    later call returns. *)
Theorem get_execution_log_snapshots (p : Proc) (cs : list api_call) :
  get_execution_log p = (inr (execution_log (self p)), p) /\
  (forallb (fun c => negb (is_phase_call c)) cs = true ->
   snapshot (after_all cs p) = snapshot p) /\
  snapshot p `prefix_of` snapshot (after_all cs p).
Proof.
  split; [done |]. split.
  - unfold after_all. revert p.
    induction cs as [|c cs IH]; intros p; simpl; [done |].
    destruct c; simpl; try done. apply IH.
  - apply after_all_frame.
Qed.

End Snapshots.

(** ** The configuration *)

Section Configuration.
Context `{C : Collaborators}.

(** C8. The constructor opens and parses the configuration file once and
    keeps what the parser returned. No call of [extract], [transform],
    [load], [run] or [get_execution_log], returning or raising, changes
    the configuration: it is the same after the call as before it, and so
    after any sequence of calls; and no such call reads the file again. *)
Theorem config_never_modified (c : api_call) (cs : list api_call) (p : Proc) :
  config (self (after c p)) = config (self p) /\
  config (self (after_all cs p)) = config (self p) /\
  (exists evs,
     calls (host (after_all cs p)) = calls (host p) ++ evs /\
     Forall (fun ev => is_config_load ev = false) evs) /\
  (forall config_path h obj h',
     __init__ config_path h = (inr obj, h') ->
     calls h' = calls h ++ [OpenConfig; SafeLoad] /\
     exists text w,
       open_read config_path (world h) = (inr text, w) /\
       safe_load text = inr (config obj)).
Proof.
  split; [apply after_frame |]. split; [apply after_all_frame |].
  split; [apply after_all_calls |]. apply init_loads_once.
Qed.

End Configuration.

(** ** Order and repetitions in the arguments *)

Section Membership.
Context `{C : Collaborators}.

(** C9. [extract] and [transform] depend on the list of sources, or of
    rules, only through which identifiers are in it: two lists with the
    same members, in any order and with any repetitions, give the same
    outcome and the same final state, hence the same returned mapping and
    the same new log entries; and [extract] makes its calls on the CSV
    extractor before its calls on the API extractor whatever the order of
    the list. *)
Theorem phases_depend_on_membership_only
    (S1 S2 R1 R2 : list string) (data : dict DataFrame) (p : Proc) :
  (forall x, x ∈ S1 <-> x ∈ S2) ->
  (forall x, x ∈ R1 <-> x ∈ R2) ->
  extract S1 p = extract S2 p /\
  transform data R1 p = transform data R2 p /\
  exists cs_csv cs_api,
    calls (host (extract S1 p).2) = calls (host p) ++ cs_csv ++ cs_api /\
    Forall (fun ev => is_csv_call ev = true) cs_csv /\
    Forall (fun ev => is_api_call ev = true) cs_api.
Proof.
  intros HS HR. split; [| split].
  - by rewrite (extract_ext S1 S2).
  - by apply transform_ext.
  - apply extract_calls_in_order.
Qed.

End Membership.

(** The same sources and rules, listed in another order and with
    repetitions. *)
Lemma phases_depend_on_membership_only_witness :
  let S1 := ["csv"; "api"] in
  let S2 := ["api"; "csv"; "csv"] in
  let R1 := ["validate"; "clean"] in
  let R2 := ["clean"; "validate"; "clean"] in
  let data : dict (@DataFrame Demo.collaborators) :=
    [("csv", [Some 3; None; Some 3])] in
  (forall x, x ∈ S1 <-> x ∈ S2) /\
  (forall x, x ∈ R1 <-> x ∈ R2) /\
  extract S1 Demo.p1 = extract S2 Demo.p1 /\
  transform data R1 Demo.p1 = transform data R2 Demo.p1.
Proof.
  intros S1 S2 R1 R2 data.
  assert (HS : forall x, x ∈ S1 <-> x ∈ S2).
  { intros x. unfold S1, S2. rewrite !elem_of_cons, elem_of_nil. tauto. }
  assert (HR : forall x, x ∈ R1 <-> x ∈ R2).
  { intros x. unfold R1, R2. rewrite !elem_of_cons, elem_of_nil. tauto. }
  split; [exact HS |]. split; [exact HR |].
  pose proof (phases_depend_on_membership_only S1 S2 R1 R2 data Demo.p1 HS HR)
    as (He & Ht & _).
  split; [exact He | exact Ht].
Defined.

(** ** Transforming with no known rule *)

Section Identity.
Context `{C : Collaborators}.

(** C10. With a rule list that has neither "clean" nor "validate",
    [transform] returns: it calls no collaborator, it returns the mapping
    it was given, with the same keys and the same records, and it appends
    one entry, with status "success" and, as record count, the total
    number of the records given. *)
Theorem transform_no_rules_identity
    (data : dict DataFrame) (rules : list string) (p : Proc) :
  "clean" ∉ rules -> "validate" ∉ rules -> NoDup (keys data) ->
  exists en p',
    transform data rules p = (inr data, p') /\
    execution_log (self p') = execution_log (self p) ++ [en] /\
    is_success_entry "transform" (Z.of_nat (length (concat (values data)))) en /\
    config (self p') = config (self p) /\
    calls (host p') = calls (host p).
Proof.
  intros Hc Hv Hnd. unfold transform.
  unfold bind at 1. unfold io at 1. unfold logger_info at 1. cbn.
  unfold try_except. unfold bind at 1.
  match goal with
  | |- context [transform_loop _ _ ?acc ?q] =>
      destruct (transform_loop_no_rules rules data acc q Hc Hv)
        as (p1 & E & Hs & Hcalls & Hw)
  end.
  rewrite E, (dict_refill data []) by done. cbn [app].
  unfold bind, io, now, execution_log_append, ret.
  destruct (clock _) as [t w]. cbn.
  exists (success_entry "transform" t (sum_len data)). eexists.
  split; [reflexivity |]. cbn [self host execution_log config calls].
  rewrite Hs, Hcalls. split; [done |]. split; [| done].
  rewrite sum_len_records_in. apply success_entry_is.
Qed.

End Identity.

(** A rule list with an unknown rule only. *)
Lemma transform_no_rules_identity_witness :
  let data : dict (@DataFrame Demo.collaborators) :=
    [("csv", [Some 1; None]); ("api", [])] in
  ("clean" ∉ ["enrich"]) /\ ("validate" ∉ ["enrich"]) /\ NoDup (keys data) /\
  exists en p',
    transform data ["enrich"] Demo.p0 = (inr data, p') /\
    execution_log (self p') = execution_log (self Demo.p0) ++ [en] /\
    is_success_entry "transform" 2 en /\
    config (self p') = config (self Demo.p0) /\
    calls (host p') = calls (host Demo.p0).
Proof.
  intros data.
  assert (Hc : "clean" ∉ ["enrich"]) by (by apply (bool_decide_unpack _)).
  assert (Hv : "validate" ∉ ["enrich"]) by (by apply (bool_decide_unpack _)).
  assert (Hn : NoDup (keys data)) by (by apply (bool_decide_unpack _)).
  split; [exact Hc |]. split; [exact Hv |]. split; [exact Hn |].
  exact (transform_no_rules_identity data ["enrich"] Demo.p0 Hc Hv Hn).
Defined.

(** * Part 5: further properties of the phases *)

(** ** load *)

Section LoadProperties.
Context `{C : Collaborators}.

(** X1. The collaborator calls of [load]: when it returns it has built one
    loader and called its [load] once per source; when it raises it has
    made no call at all (the configuration lookup failed) or has built the
    loader and made at most one call per source, the last one being the one
    that raised: what was loaded before the failure stays loaded. *)
Theorem load_calls_made (data : dict DataFrame) (mode : string) (p : Proc) :
  exists cs,
    calls (host (load data mode p).2) = calls (host p) ++ cs /\
    match (load data mode p).1 with
    | inr _ => cs = load_calls (length data)
    | inl _ => cs = [] \/ exists k, (k <= length data)%nat /\ cs = load_calls k
    end.
Proof.
  destruct (load data mode p) as [[e|u] p'] eqn:E; cbn [fst snd].
  - apply load_raises_calls in E as [E | (k & Hk & E)].
    + exists []. rewrite app_nil_r. split; [done | by left].
    + exists (load_calls k). split; [done |]. right. by exists k.
  - apply load_returns_calls in E. by exists (load_calls (length data)).
Qed.

(** X2. Without a database block in the configuration (the configuration
    is not a mapping, or has no key "database"), [load] raises a KeyError
    or a TypeError for every data and mode, before any collaborator is
    called, and appends one entry: status "error", phase "load", the text
    of the exception. *)
Theorem load_without_database_block
    (data : dict DataFrame) (mode : string) (p : Proc) :
  database_block (config (self p)) = None ->
  exists e en p',
    load data mode p = (inl e, p') /\
    (exn_class e = "KeyError" \/ exn_class e = "TypeError") /\
    is_Exception e = true /\
    execution_log (self p') = execution_log (self p) ++ [en] /\
    is_error_entry "load" (str e) en /\
    calls (host p') = calls (host p).
Proof.
  intros Hdb. destruct (load data mode p) as [r p'] eqn:E.
  pose proof (load_post _ _ _ _ _ E) as (_ & _ & Hlog).
  unfold load in E. apply phase_inv in E. destruct r as [e|u].
  - destruct E as (p1 & E & Hcalls & _).
    apply bind_inl_inv in E as [E | (cfg & q1 & E1 & E)]; [done |].
    apply self_config_inv in E1 as [[= ->] ->].
    apply bind_inl_inv in E as [E | (db & q2 & E2 & E)].
    + apply yaml_getitem_inv in E as [-> [Hcls He]]. rewrite He in Hlog.
      destruct Hlog as (t & Hlog).
      exists e, (error_entry "load" t e), p'.
      split; [done |]. split; [done |]. split; [done |].
      split; [done |]. split; [apply error_entry_is |]. by rewrite Hcalls.
    + apply yaml_getitem_inv in E2 as [_ [Hsome | Hne]]; [| done].
      cbn [log_line self] in Hsome. by rewrite Hdb in Hsome.
  - exfalso. do 2 inv_bind E.
    apply self_config_inv in E0 as [[= ->] ->].
    apply yaml_getitem_inv in E1 as [_ [Hsome | Hne]]; [| done].
    cbn [log_line self] in Hsome. by rewrite Hdb in Hsome.
Qed.

(** X3. With nothing to load, [load] still needs the database block and a
    loader: when the loader can be built from the block, [load] returns
    after that one call and appends one entry: status "success", phase
    "load", zero records. *)
Theorem load_nothing (mode : string) (p : Proc) db loader w :
  database_block (config (self p)) = Some db ->
  DatabaseLoader_new db (world (host p)) = (inr loader, w) ->
  exists en p',
    load [] mode p = (inr tt, p') /\
    execution_log (self p') = execution_log (self p) ++ [en] /\
    is_success_entry "load" 0 en /\
    calls (host p') = calls (host p) ++ [NewDatabaseLoader].
Proof.
  destruct p as [[cfg log] h]. cbn. intros Hdb Hnew.
  destruct cfg as [| | | | |m]; try done. cbn in Hdb.
  unfold load, bind, try_except, io, logger_info, self_config, call, now,
    execution_log_append, ret. cbn. rewrite Hdb. cbn.
  rewrite Hnew. cbn. destruct (clock w) as [t w']. cbn.
  exists (success_entry "load" t 0). eexists. split; [reflexivity |].
  split; [done |]. split; [apply success_entry_is | done].
Qed.

End LoadProperties.

Lemma load_without_database_block_witness :
  let p := mkProc (mkPipeline (YMap [("csv_path", YStr "vendas.csv")]) [])
                  Demo.h0 in
  let data : dict (@DataFrame Demo.collaborators) := [("csv", [Some 1])] in
  database_block (config (self p)) = None /\
  exists e en p',
    load data "full" p = (inl e, p') /\
    (exn_class e = "KeyError" \/ exn_class e = "TypeError") /\
    is_Exception e = true /\
    execution_log (self p') = execution_log (self p) ++ [en] /\
    is_error_entry "load" (str e) en /\
    calls (host p') = calls (host p).
Proof.
  intros p data.
  assert (H : database_block (config (self p)) = None) by reflexivity.
  split; [exact H |].
  exact (load_without_database_block data "full" p H).
Defined.

Lemma load_nothing_witness :
  let db := YMap [("host", YStr "localhost")] in
  database_block (config (self Demo.p0)) = Some db /\
  DatabaseLoader_new db (world (host Demo.p0)) = (inr tt, Demo.w0) /\
  exists en p',
    load [] "incremental" Demo.p0 = (inr tt, p') /\
    execution_log (self p') = execution_log (self Demo.p0) ++ [en] /\
    is_success_entry "load" 0 en /\
    calls (host p') = calls (host Demo.p0) ++ [NewDatabaseLoader].
Proof.
  intros db.
  assert (H1 : database_block (config (self Demo.p0)) = Some db)
    by reflexivity.
  assert (H2 : DatabaseLoader_new db (world (host Demo.p0)) = (inr tt, Demo.w0))
    by reflexivity.
  split; [exact H1 |]. split; [exact H2 |].
  exact (load_nothing "incremental" Demo.p0 db tt Demo.w0 H1 H2).
Defined.

(** ** extract and transform *)

Section ExtractTransformProperties.
Context `{C : Collaborators}.

(** X4. When neither "csv" nor "api" is requested (the empty list, or only
    unknown identifiers), [extract] returns the empty mapping and appends
    one entry: status "success", phase "extract", zero records; it calls no
    collaborator and does not read the configuration, so it returns
    whatever the configuration is. *)
Theorem extract_no_recognized_source (sources : list string) (p : Proc) :
  "csv" ∉ sources -> "api" ∉ sources ->
  exists en p',
    extract sources p = (inr [], p') /\
    execution_log (self p') = execution_log (self p) ++ [en] /\
    is_success_entry "extract" 0 en /\
    config (self p') = config (self p) /\
    calls (host p') = calls (host p).
Proof.
  intros Hcsv Hapi. unfold extract.
  destruct (decide ("csv" ∈ sources)); [done |].
  destruct (decide ("api" ∈ sources)); [done |].
  unfold bind, try_except, io, logger_info, now, execution_log_append, ret.
  cbn. destruct (clock _) as [t w]. cbn.
  exists (success_entry "extract" t 0). eexists. split; [reflexivity |].
  split; [done |]. split; [apply success_entry_is | done].
Qed.

(** X5. The record count in the entry a returning [extract] appends, and
    in the one a returning [transform] appends, is the total number of
    records in the mapping the call returns: the records of all its
    sources, counted together. *)
Theorem success_entry_counts_returned_records
    (sources rules : list string) (data : dict DataFrame) (p : Proc) :
  (forall d p',
     extract sources p = (inr d, p') ->
     exists en,
       execution_log (self p') = execution_log (self p) ++ [en] /\
       is_success_entry "extract" (Z.of_nat (length (concat (values d)))) en) /\
  (forall d p',
     transform data rules p = (inr d, p') ->
     exists en,
       execution_log (self p') = execution_log (self p) ++ [en] /\
       is_success_entry "transform" (Z.of_nat (length (concat (values d)))) en).
Proof.
  split; intros d p' E.
  - apply extract_post in E as (_ & _ & t & n & L & ->).
    exists (success_entry "extract" t (sum_len d)). split; [done |].
    rewrite sum_len_records_in. apply success_entry_is.
  - apply transform_post in E as (_ & _ & t & n & L & ->).
    exists (success_entry "transform" t (sum_len d)). split; [done |].
    rewrite sum_len_records_in. apply success_entry_is.
Qed.

(** X6. With a configuration that is a mapping, what [extract] returns is
    what the extractors returned: the mapping from each requested
    recognized source, CSV before API, to the records its extractor gave,
    the extractor being built from the configured location and the API
    being read in the world the CSV read left. *)
Theorem extract_stores_extractor_records (sources : list string) (p : Proc)
    (m : dict yaml) (d : dict DataFrame) (p' : Proc) :
  config (self p) = YMap m ->
  extract sources p = (inr d, p') ->
  exists w,
    read_sources (requested_sources sources) m (world (host p)) = (inr d, w).
Proof.
  intros Hcfg E. pose proof (extract_result sources p m Hcfg) as Hres.
  rewrite E in Hres. cbn [fst] in Hres.
  destruct (read_sources _ _ _) as [r w]. cbn [fst] in Hres. subst r.
  by exists w.
Qed.

(** X7. Each phase calls only its own collaborators: [extract] only the
    two extractor classes, [transform] only the cleaner and the validator,
    [load] only the loader; and none reads the configuration file. *)
Theorem phases_call_own_collaborators
    (sources rules : list string) (data : dict DataFrame) (mode : string) :
  calls_only (is_call_of PExtract) (extract sources) /\
  calls_only (is_call_of PTransform) (transform data rules) /\
  calls_only (is_call_of PLoad) (load data mode).
Proof.
  split; [apply extract_calls_of |].
  split; [apply transform_calls_of | apply load_calls_of].
Qed.

(** X8. What [transform] returns has the keys of what it was given, in the
    same order: no source is dropped, added or renamed, whatever the rules
    do to the records. *)
Theorem transform_keeps_sources (data : dict DataFrame) (rules : list string)
    (p : Proc) (d : dict DataFrame) (p' : Proc) :
  NoDup (keys data) ->
  transform data rules p = (inr d, p') ->
  keys d = keys data /\ length d = length data.
Proof.
  intros Hnd H. apply transform_returns_keys in H; [| done].
  split; [done |]. unfold keys in H.
  by rewrite <- (length_fmap fst d), H, length_fmap.
Qed.

End ExtractTransformProperties.

Lemma extract_no_recognized_source_witness :
  ("csv" ∉ ["db"; "ftp"]) /\ ("api" ∉ ["db"; "ftp"]) /\
  exists en p',
    extract ["db"; "ftp"] Demo.p0 = (inr [], p') /\
    execution_log (self p') = execution_log (self Demo.p0) ++ [en] /\
    is_success_entry "extract" 0 en /\
    config (self p') = config (self Demo.p0) /\
    calls (host p') = calls (host Demo.p0).
Proof.
  assert (H1 : "csv" ∉ ["db"; "ftp"]) by (by apply (bool_decide_unpack _)).
  assert (H2 : "api" ∉ ["db"; "ftp"]) by (by apply (bool_decide_unpack _)).
  split; [exact H1 |]. split; [exact H2 |].
  exact (extract_no_recognized_source ["db"; "ftp"] Demo.p0 H1 H2).
Defined.

(** The CSV file has six rows. *)
Lemma success_entry_counts_returned_records_witness :
  let r := extract ["csv"] Demo.p0 in
  r = (inr [("csv", [Some 10; Some 20; Some 10; None; Some (-5); Some 7])],
       r.2) /\
  exists en,
    execution_log (self r.2) = execution_log (self Demo.p0) ++ [en] /\
    is_success_entry "extract" 6 en.
Proof.
  intros r.
  assert (H : r = (inr [("csv", [Some 10; Some 20; Some 10; None; Some (-5);
                                 Some 7])], r.2))
    by (vm_compute; reflexivity).
  split; [exact H |].
  exact (proj1 (success_entry_counts_returned_records
                  ["csv"] [] [] Demo.p0) _ _ H).
Defined.

Lemma extract_stores_extractor_records_witness :
  let m := [("csv_path", YStr "vendas.csv");
            ("api_url", YStr "http://api/vendas");
            ("database", YMap [("host", YStr "localhost")])] in
  let d : dict (@DataFrame Demo.collaborators) :=
    [("csv", [Some 10; Some 20; Some 10; None; Some (-5); Some 7]);
     ("api", [Some 1; Some 2])] in
  let r := extract ["api"; "csv"] Demo.p1 in
  config (self Demo.p1) = YMap m /\
  r = (inr d, r.2) /\
  exists w,
    read_sources ["csv"; "api"] m (world (host Demo.p1)) = (inr d, w).
Proof.
  intros m d r.
  assert (H1 : config (self Demo.p1) = YMap m) by reflexivity.
  assert (H2 : r = (inr d, r.2)) by (vm_compute; reflexivity).
  split; [exact H1 |]. split; [exact H2 |].
  exact (extract_stores_extractor_records ["api"; "csv"] Demo.p1 m d r.2
           H1 H2).
Defined.

Lemma transform_keeps_sources_witness :
  let data : dict (@DataFrame Demo.collaborators) :=
    [("csv", [Some 3; Some 3; Some (-1)]); ("api", [Some 4])] in
  let r := transform data ["clean"; "validate"] Demo.p0 in
  NoDup (keys data) /\
  r = (inr [("csv", [Some 3]); ("api", [Some 4])], r.2) /\
  keys [("csv", [Some 3]); ("api", [Some 4])] = keys data /\
  length [("csv", [Some 3]); ("api", [Some 4])] = length data.
Proof.
  intros data r.
  assert (Hn : NoDup (keys data)) by (by apply (bool_decide_unpack _)).
  assert (H : r = (inr [("csv", [Some 3]); ("api", [Some 4])], r.2))
    by (vm_compute; reflexivity).
  split; [exact Hn |]. split; [exact H |].
  exact (transform_keeps_sources data ["clean"; "validate"] Demo.p0 _ _ Hn H).
Defined.

(** ** A whole run *)

Section RunProperties.
Context `{C : Collaborators}.

(** X9. The collaborator calls of a run that returns: the extractors of
    the requested recognized sources (CSV before API), then for each
    extracted source the collaborators of the requested rules, then one
    loader and one call of its [load] per extracted source. *)
Theorem run_success_calls (sources rules : list string) (mode : string)
    (p p' : Proc) :
  run sources rules mode p = (inr tt, p') ->
  let n := length (requested_sources sources) in
  calls (host p') =
    calls (host p) ++ extract_calls sources ++ transform_calls rules n ++
      load_calls n.
Proof. apply run_returns_calls. Qed.

(** X10. When a run fails during a phase, the collaborators of the later
    phases have not been called: a failure in extract reaches neither the
    cleaner, the validator nor the loader, a failure in transform does not
    reach the loader; and the configuration file is not read again. *)
Theorem run_failure_stops_later_phases (P : phase)
    (sources rules : list string) (mode : string) (p : Proc) (e : exn) :
  fails_during P sources rules mode p e ->
  exists cs,
    calls (host (run sources rules mode p).2) = calls (host p) ++ cs /\
    Forall (fun ev => is_call_upto P ev = true) cs.
Proof. apply run_fails_calls. Qed.

(** X11. A phase writes through the logger at level INFO only, except
    that a phase that raises an instance of [Exception] ends with exactly
    one ERROR record, which carries the text of the exception. A phase
    that returns logs no error, and neither does a phase that is left by
    an exception that is not an instance of [Exception]. *)
Theorem phases_report_failures
    (sources rules : list string) (data : dict DataFrame) (mode : string) :
  reports_failure MsgErroExtracao (extract sources) /\
  reports_failure MsgErroTransformacao (transform data rules) /\
  reports_failure MsgErroCarga (load data mode).
Proof.
  split; [apply extract_reports_failure |].
  split; [apply transform_reports_failure | apply load_reports_failure].
Qed.

(** X12. What [run] writes through the logger: only INFO records when it
    returns; when it raises an instance of [Exception], INFO records, then
    the ERROR record of the phase that failed, then the three ERROR lines
    of [run] with the text of the exception; when it is left by another
    exception (KeyboardInterrupt, SystemExit), INFO records only. *)
Theorem run_reports_failure (sources rules : list string) (mode : string)
    (p : Proc) :
  exists new,
    logged (host (run sources rules mode p).2) = logged (host p) ++ new /\
    match (run sources rules mode p).1 with
    | inr _ => Forall (fun r => is_info r = true) new
    | inl e =>
        if is_Exception e then
          exists pre msg,
            new = pre ++ [(ERROR, msg); (ERROR, MsgSeparador);
                          (ERROR, MsgPipelineFalhou (str e));
                          (ERROR, MsgSeparador)] /\
            Forall (fun r => is_info r = true) pre /\
            msg ∈ [MsgErroExtracao (str e); MsgErroTransformacao (str e);
                   MsgErroCarga (str e)]
        else Forall (fun r => is_info r = true) new
    end.
Proof. apply run_log_levels. Qed.

End RunProperties.

Lemma run_success_calls_witness :
  let r := run ["api"; "csv"] ["validate"; "clean"] "full" Demo.p1 in
  r = (inr tt, r.2) /\
  calls (host r.2) =
    [NewCSVExtractor; CSVExtract; NewAPIExtractor; APIExtract;
     NewDataCleaner; Clean; NewDataValidator; Validate;
     NewDataCleaner; Clean; NewDataValidator; Validate;
     NewDatabaseLoader; LoaderLoad; LoaderLoad].
Proof.
  intros r.
  assert (H : r = (inr tt, r.2)) by (vm_compute; reflexivity).
  split; [exact H |].
  exact (run_success_calls ["api"; "csv"] ["validate"; "clean"] "full"
           Demo.p1 r.2 H).
Defined.

Lemma run_failure_stops_later_phases_witness :
  let e := Exn "ValueError" "null row" in
  fails_during PTransform ["csv"] ["validate"] "incremental" Demo.p0 e /\
  exists cs,
    calls (host (run ["csv"] ["validate"] "incremental" Demo.p0).2) =
      calls (host Demo.p0) ++ cs /\
    Forall (fun ev => is_call_upto PTransform ev = true) cs.
Proof.
  assert (H : fails_during PTransform ["csv"] ["validate"] "incremental"
                Demo.p0 (Exn "ValueError" "null row")).
  { simpl. eexists _, _, _. split; vm_compute; reflexivity. }
  split; [exact H |].
  exact (run_failure_stops_later_phases PTransform ["csv"] ["validate"]
           "incremental" Demo.p0 (Exn "ValueError" "null row") H).
Defined.

(** ** Failures and totals *)

Section FailuresAndTotals.
Context `{C : Collaborators}.

(** X14. When building or calling the CSV extractor raises, [extract]
    raises the same exception without trying the API source, even when it
    was requested: only the CSV extractor has been called and nothing is
    returned. For an instance of [Exception] one entry is appended: status
    "error", phase "extract", the text of the exception; for another
    exception the execution log is left as it was. *)
Theorem extract_csv_failure_skips_api (sources : list string) (p : Proc)
    (m : dict yaml) (e : exn) (w : World) :
  "csv" ∈ sources ->
  config (self p) = YMap m ->
  source_records "csv" m (world (host p)) = (inl e, w) ->
  exists p' cs,
    extract sources p = (inl e, p') /\
    calls (host p') = calls (host p) ++ cs /\
    Forall (fun ev => is_csv_call ev = true) cs /\
    if is_Exception e then
      exists en,
        execution_log (self p') = execution_log (self p) ++ [en] /\
        is_error_entry "extract" (str e) en
    else execution_log (self p') = execution_log (self p).
Proof.
  intros Hcsv Hcfg Hrec. destruct p as [[cfg log] h]. cbn in *. subst cfg.
  rewrite source_records_csv in Hrec.
  unfold extract. destruct (decide ("csv" ∈ sources)); [| done].
  unfold bind, try_except, io, call, logger_info, logger_error, self_config,
    yaml_get, now, execution_log_append, raise, ret. cbn.
  destruct (CSVExtractor_new _ _) as [[e1|x] w1]; cbn.
  - injection Hrec as -> ->. destruct (is_Exception e); cbn.
    + destruct (clock _) as [t w']. cbn.
      eexists. exists [NewCSVExtractor]. split; [reflexivity |]. cbn.
      split; [done |]. split; [by repeat constructor |].
      exists (error_entry "extract" t e).
      split; [done | apply error_entry_is].
    + eexists. exists [NewCSVExtractor]. split; [reflexivity |]. cbn.
      split; [done |]. split; [by repeat constructor | done].
  - rewrite Hrec. cbn. destruct (is_Exception e); cbn.
    + destruct (clock _) as [t w']. cbn.
      eexists. exists [NewCSVExtractor; CSVExtract].
      split; [reflexivity |]. cbn. rewrite <- app_assoc.
      split; [done |]. split; [by repeat constructor |].
      exists (error_entry "extract" t e).
      split; [done | apply error_entry_is].
    + eexists. exists [NewCSVExtractor; CSVExtract].
      split; [reflexivity |]. cbn. rewrite <- app_assoc.
      split; [done |]. split; [by repeat constructor | done].
Qed.

(** X15. When the configuration is not a mapping (an empty YAML file gives
    None), [extract] of a recognized source raises an AttributeError on the
    configuration lookup: no extractor is built, and one entry is
    appended: status "error", phase "extract", the text of the
    exception. *)
Theorem extract_config_not_mapping (sources : list string) (p : Proc) :
  (forall m, config (self p) <> YMap m) ->
  "csv" ∈ sources \/ "api" ∈ sources ->
  exists e en p',
    extract sources p = (inl e, p') /\
    exn_class e = "AttributeError" /\
    is_Exception e = true /\
    execution_log (self p') = execution_log (self p) ++ [en] /\
    is_error_entry "extract" (str e) en /\
    calls (host p') = calls (host p).
Proof.
  intros Hcfg Hreq. destruct p as [[cfg log] h]. cbn in *.
  unfold extract.
  destruct (decide ("csv" ∈ sources)) as [Hc|Hc];
    [| destruct (decide ("api" ∈ sources)) as [Ha|Ha]; [| tauto]];
    destruct cfg as [| | | | |m]; try (by destruct (Hcfg m));
    unfold bind, try_except, io, logger_info, logger_error, self_config,
      now, execution_log_append, raise, ret; cbn;
    destruct (clock _) as [t w]; cbn;
    eexists; eexists (error_entry "extract" t _); eexists;
    (split; [reflexivity |]); cbn;
    (split; [done |]); (split; [done |]); (split; [done |]);
    (split; [apply error_entry_is | done]).
Qed.

(** X16. The record count of a load that returns is the sum of the counts
    the loader returned for the sources, taken in the order of the
    mapping, each call made in the world the previous one left: when the
    loader can be built and none of its calls raises, [load] returns and
    appends one entry: status "success", phase "load", that sum as record
    count. *)
Theorem load_total_is_sum (data : dict DataFrame) (mode : string) (p : Proc)
    db loader w ns :
  database_block (config (self p)) = Some db ->
  DatabaseLoader_new db (world (host p)) = (inr loader, w) ->
  loader_counts loader mode (values data) w = inr ns ->
  exists en p',
    load data mode p = (inr tt, p') /\
    execution_log (self p') = execution_log (self p) ++ [en] /\
    is_success_entry "load" (foldr Z.add 0 ns) en.
Proof.
  intros Hdb Hnew Hns.
  set (q := mkProc (self p)
              (mkHost w (logged (host p) ++ [(INFO, MsgFaseCarga)])
                      (calls (host p) ++ [NewDatabaseLoader]))).
  destruct (load_loop_total_sum loader mode data 0 q ns Hns) as (p1 & E & Hs).
  destruct (clock (world (host p1))) as [t w'] eqn:Hclock.
  exists (success_entry "load" t (0 + foldr Z.add 0 ns)). eexists.
  split; [| split].
  - unfold load. rewrite bind_logger_info. apply try_except_inr.
    eapply bind_inr_intro; [reflexivity |].
    eapply bind_inr_intro.
    { unfold database_block in Hdb. cbn [log_line self].
      destruct (config (self p)) as [| | | | |m]; try done.
      cbn. rewrite Hdb. reflexivity. }
    eapply bind_inr_intro.
    { unfold io, call. cbn. rewrite Hnew. reflexivity. }
    eapply bind_inr_intro; [exact E |].
    eapply bind_inr_intro; [reflexivity |].
    eapply bind_inr_intro.
    { unfold io, now. cbn. rewrite Hclock. reflexivity. }
    reflexivity.
  - cbn. by rewrite Hs.
  - rewrite Z.add_0_l. apply success_entry_is.
Qed.

End FailuresAndTotals.

(** A configuration that names a CSV file that is not there, with the API
    up: the API extractor is not tried. *)
Lemma extract_csv_failure_skips_api_witness :
  let m := [("csv_path", YStr "missing.csv")] in
  let p := mkProc (mkPipeline (YMap m) []) Demo.h1 in
  let e := Exn "FileNotFoundError" "missing.csv" in
  "csv" ∈ ["api"; "csv"] /\
  config (self p) = YMap m /\
  source_records "csv" m (world (host p)) = (inl e, Demo.w1) /\
  exists p' cs,
    extract ["api"; "csv"] p = (inl e, p') /\
    calls (host p') = calls (host p) ++ cs /\
    Forall (fun ev => is_csv_call ev = true) cs /\
    exists en,
      execution_log (self p') = execution_log (self p) ++ [en] /\
      is_error_entry "extract" "missing.csv" en.
Proof.
  intros m p e.
  assert (Hin : "csv" ∈ ["api"; "csv"]) by (by apply (bool_decide_unpack _)).
  assert (Hc : config (self p) = YMap m) by reflexivity.
  assert (Hr : source_records "csv" m (world (host p)) = (inl e, Demo.w1))
    by (vm_compute; reflexivity).
  split; [exact Hin |]. split; [exact Hc |]. split; [exact Hr |].
  exact (extract_csv_failure_skips_api ["api"; "csv"] p m e Demo.w1
           Hin Hc Hr).
Defined.

(** The configuration an empty YAML file gives. *)
Lemma extract_config_not_mapping_witness :
  let p := mkProc (mkPipeline YNull []) Demo.h1 in
  (forall m, config (self p) <> YMap m) /\
  ("csv" ∈ ["api"] \/ "api" ∈ ["api"]) /\
  exists e en p',
    extract ["api"] p = (inl e, p') /\
    exn_class e = "AttributeError" /\
    is_Exception e = true /\
    execution_log (self p') = execution_log (self p) ++ [en] /\
    is_error_entry "extract" (str e) en /\
    calls (host p') = calls (host p).
Proof.
  intros p.
  assert (H1 : forall m, config (self p) <> YMap m) by (intros m; discriminate).
  assert (H2 : "csv" ∈ ["api"] \/ "api" ∈ ["api"])
    by (right; by apply (bool_decide_unpack _)).
  split; [exact H1 |]. split; [exact H2 |].
  exact (extract_config_not_mapping ["api"] p H1 H2).
Defined.

(** Two sources of two and one rows. *)
Lemma load_total_is_sum_witness :
  let db := YMap [("host", YStr "localhost")] in
  let data : dict (@DataFrame Demo.collaborators) :=
    [("csv", [Some 1; Some 2]); ("api", [Some 3])] in
  database_block (config (self Demo.p0)) = Some db /\
  DatabaseLoader_new db (world (host Demo.p0)) = (inr tt, Demo.w0) /\
  loader_counts (C := Demo.collaborators) tt "full" (values data) Demo.w0
    = inr [2; 1] /\
  exists en p',
    load data "full" Demo.p0 = (inr tt, p') /\
    execution_log (self p') = execution_log (self Demo.p0) ++ [en] /\
    is_success_entry "load" 3 en.
Proof.
  intros db data.
  assert (H1 : database_block (config (self Demo.p0)) = Some db)
    by reflexivity.
  assert (H2 : DatabaseLoader_new db (world (host Demo.p0)) = (inr tt, Demo.w0))
    by reflexivity.
  assert (H3 : loader_counts (C := Demo.collaborators) tt "full"
                 (values data) Demo.w0 = inr [2; 1])
    by (vm_compute; reflexivity).
  split; [exact H1 |]. split; [exact H2 |]. split; [exact H3 |].
  exact (load_total_is_sum data "full" Demo.p0 db tt Demo.w0 [2; 1] H1 H2 H3).
Defined.

(** * Part 6: the forecaster *)

Section ForecasterSteps.
Import SalesForecaster.
Context `{E : Estimators}.

Lemma train_outcome (X : Features) (y : Target) (s : State) :
  train X y s =
    let '(r, m, w) := fit (model (self s)) X y (world s) in
    match r with
    | inl e =>
        (inl e,
         mkState (mkForecaster (model_type (self s)) m (is_trained (self s)))
                 w (logged s ++ [MsgTreinando (model_type (self s))]))
    | inr _ =>
        (inr tt,
         mkState (mkForecaster (model_type (self s)) m true)
                 w (logged s ++ [MsgTreinando (model_type (self s));
                                 MsgTreinado]))
    end.
Proof.
  unfold train, bind, logger_info, set_is_trained. cbn.
  destruct (fit _ _ _ _) as [[[e | []] m] w]; cbn; [done |].
  by rewrite <- app_assoc.
Qed.

Lemma load_model_outcome (filepath : string) (s : State) :
  load_model filepath s =
    let (r, w) := joblib_load filepath (world s) in
    match r with
    | inl e => (inl e, mkState (self s) w (logged s))
    | inr m =>
        (inr tt,
         mkState (mkForecaster (model_type (self s)) m true)
                 w (logged s ++ [MsgCarregado filepath]))
    end.
Proof.
  unfold load_model, bind, logger_info, set_is_trained, set_model. cbn.
  by destruct (joblib_load _ _) as [[e | m] w].
Qed.

Lemma invoke_trained (c : method) (s : State) :
  is_trained (self (invoke c s).2) =
    is_trained (self s) || (trains c && (invoke c s).1)
  /\ model_type (self (invoke c s).2) = model_type (self s).
Proof.
  destruct s as [[t m b] w l], c as [X y | X | f | f]; cbn [invoke trains].
  - rewrite train_outcome; cbn.
    destruct (fit _ _ _ _) as [[[e | []] m'] w']; cbn;
      by rewrite ?orb_false_r, ?orb_true_r.
  - unfold predict, returned; cbn. destruct b; cbn; [| done].
    by destruct (model_predict _ _ _) as [r w'].
  - unfold save_model, returned, bind, logger_info; cbn.
    destruct b; cbn; [| done].
    by destruct (joblib_dump _ _ _) as [[e | []] w'].
  - rewrite load_model_outcome; cbn.
    destruct (joblib_load _ _) as [[e | m'] w']; cbn;
      by rewrite ?orb_false_r, ?orb_true_r.
Qed.

Lemma invoke_untrained (c : method) (s : State) :
  trains c = false -> is_trained (self s) = false ->
  invoke c s = (false, s).
Proof.
  destruct s as [[t m b] w l], c as [X y | X | f | f]; cbn; try done.
  - by intros _ ->.
  - by intros _ ->.
Qed.

End ForecasterSteps.

Section ForecasterProperties.
Import SalesForecaster.
Context `{E : Estimators}.

(** X18. The constructor accepts exactly the three types 'linear',
    'random_forest' and 'xgboost': for one of them it returns a forecaster
    of that type, not trained, holding the estimator of that type; for any
    other string it raises ValueError "Modelo <type> não suportado". *)
Theorem forecaster_init_outcome (t : string) :
  match __init__ t with
  | inr f =>
      t ∈ ["linear"; "random_forest"; "xgboost"]
      /\ model_type f = t /\ is_trained f = false
      /\ (t = "linear" -> model f = LinearRegression)
      /\ (t = "random_forest" -> model f = RandomForestRegressor)
      /\ (t = "xgboost" -> model f = XGBRegressor)
  | inl e =>
      (t ∉ ["linear"; "random_forest"; "xgboost"])
      /\ e = Exn "ValueError" ("Modelo " +:+ t +:+ " não suportado")
  end.
Proof.
  unfold __init__, _initialize_model. cbn [keys fmap list_fmap fst].
  destruct (decide _) as [Hin | Hout]; [| done].
  assert (Hget : forall k, dict_get t
            [("linear", LinearRegression);
             ("random_forest", RandomForestRegressor);
             ("xgboost", XGBRegressor)] = Some k ->
          (t = "linear" -> k = LinearRegression)
          /\ (t = "random_forest" -> k = RandomForestRegressor)
          /\ (t = "xgboost" -> k = XGBRegressor)).
  { intros k. cbn [dict_get].
    repeat (destruct (decide _) as [-> | ?]); try done;
      intros [= <-]; by repeat split. }
  destruct (dict_get t _) as [k |] eqn:Hk.
  - destruct (Hget k eq_refl) as (? & ? & ?). by repeat split.
  - exfalso. revert Hk. cbn [dict_get].
    repeat (destruct (decide _) as [-> | ?]); try done.
    apply elem_of_cons in Hin as [-> | Hin]; [done |].
    apply elem_of_cons in Hin as [-> | Hin]; [done |].
    apply elem_of_cons in Hin as [-> | Hin]; [done |].
    by apply elem_of_nil in Hin.
Qed.

(** X19. Whatever calls are made on a forecaster, in whatever order and
    whether they return or raise: it is trained afterwards exactly when it
    was trained before or one of the [train] or [load_model] calls
    returned, and its [model_type] is never changed (not even by
    [load_model]). *)
Theorem forecaster_trained_iff (cs : list method) (s : State) :
  is_trained (self (invoke_all cs s).2) =
    is_trained (self s) || (invoke_all cs s).1
  /\ model_type (self (invoke_all cs s).2) = model_type (self s).
Proof.
  revert s. induction cs as [| c cs IH]; intros s; cbn [invoke_all].
  - by rewrite orb_false_r.
  - destruct (invoke_trained c s) as [Ht Hm].
    destruct (invoke c s) as [ok s1]; cbn [fst snd] in *.
    destruct (IH s1) as [Ht' Hm'].
    destruct (invoke_all cs s1) as [later s2]; cbn [fst snd] in *.
    rewrite Ht', Ht, Hm', Hm. split; [| done].
    by rewrite orb_assoc.
Qed.

(** X20. On a forecaster that is not trained, any number of [predict] and
    [save_model] calls all raise and leave the forecaster, the estimator,
    the files and the log as they were: the estimator and joblib are
    never reached. *)
Theorem forecaster_untrained_refuses (cs : list method) (s : State) :
  is_trained (self s) = false ->
  Forall (fun c => trains c = false) cs ->
  invoke_all cs s = (false, s)
  /\ Forall (fun c => invoke c s = (false, s)) cs.
Proof.
  intros Hs Hcs. induction Hcs as [| c cs Hc Hcs [IH1 IH2]]; [done |].
  cbn [invoke_all]. rewrite (invoke_untrained c s Hc Hs), IH1.
  split; [by rewrite Hc | constructor; [by apply invoke_untrained | done]].
Qed.

(** X21. When the estimator's [fit] raises, [train] raises the same
    exception: [is_trained] keeps its value, the success line is not
    logged (only the starting line is), and the estimator is left as [fit]
    left it. *)
Theorem forecaster_failed_train
    (X : Features) (y : Target) (s : State) (e : exn) (m : Model) (w : World) :
  fit (model (self s)) X y (world s) = (inl e, m, w) ->
  exists s',
    train X y s = (inl e, s')
    /\ is_trained (self s') = is_trained (self s)
    /\ model_type (self s') = model_type (self s)
    /\ model (self s') = m /\ world s' = w
    /\ logged s' = logged s ++ [MsgTreinando (model_type (self s))].
Proof.
  intros Hfit. rewrite train_outcome, Hfit. by eexists.
Qed.

(** X22. Training and then predicting: when [fit] returns, the prediction
    that follows is the one of the estimator as [fit] left it, in the
    world as [fit] left it, also on a forecaster that was not trained
    before; and two lines are logged, both by [train]. *)
Theorem forecaster_train_then_predict
    (X : Features) (y : Target) (X' : Features) (s : State)
    (m : Model) (w : World) :
  fit (model (self s)) X y (world s) = (inr tt, m, w) ->
  (train X y ;; predict X') s =
    ((model_predict m X' w).1,
     mkState (mkForecaster (model_type (self s)) m true)
             (model_predict m X' w).2
             (logged s ++ [MsgTreinando (model_type (self s)); MsgTreinado])).
Proof.
  intros Hfit. unfold bind at 1. rewrite train_outcome, Hfit.
  unfold predict; cbn. by destruct (model_predict _ _ _).
Qed.

End ForecasterProperties.

Lemma forecaster_untrained_refuses_witness :
  let cs := [SalesForecaster.Predict (E := ForecasterDemo.estimators) [1; 2];
             SalesForecaster.SaveModel "m.pkl";
             SalesForecaster.Predict (E := ForecasterDemo.estimators) [3]] in
  SalesForecaster.invoke_all cs ForecasterDemo.fresh
    = (false, ForecasterDemo.fresh)
  /\ Forall (fun c => SalesForecaster.invoke c ForecasterDemo.fresh
                       = (false, ForecasterDemo.fresh)) cs.
Proof.
  apply (forecaster_untrained_refuses (E := ForecasterDemo.estimators)).
  - reflexivity.
  - repeat constructor.
Defined.

Lemma forecaster_failed_train_witness :
  exists s',
    SalesForecaster.train (E := ForecasterDemo.estimators) [1; 2] [3]
      ForecasterDemo.fresh
      = (inl (Exn "ValueError" "inconsistent numbers of samples"), s')
    /\ SalesForecaster.is_trained (SalesForecaster.self s') = false
    /\ SalesForecaster.model_type (SalesForecaster.self s') = "xgboost"
    /\ SalesForecaster.model (SalesForecaster.self s') = []
    /\ SalesForecaster.world s' = []
    /\ SalesForecaster.logged s' = [SalesForecaster.MsgTreinando "xgboost"].
Proof.
  apply (forecaster_failed_train (E := ForecasterDemo.estimators)
           [1; 2] [3] ForecasterDemo.fresh
           (Exn "ValueError" "inconsistent numbers of samples") [] []).
  reflexivity.
Defined.

Lemma forecaster_train_then_predict_witness :
  (SalesForecaster.train (E := ForecasterDemo.estimators) [1; 2] [10; 20] ;;
   SalesForecaster.predict (E := ForecasterDemo.estimators) [5; 6])
    ForecasterDemo.fresh
  = (inr [15; 16],
     SalesForecaster.mkState
       (SalesForecaster.mkForecaster (E := ForecasterDemo.estimators)
          "xgboost" [10; 20] true) []
       [SalesForecaster.MsgTreinando "xgboost"; SalesForecaster.MsgTreinado]).
Proof.
  apply (forecaster_train_then_predict (E := ForecasterDemo.estimators)
           [1; 2] [10; 20] [5; 6] ForecasterDemo.fresh [10; 20] []).
  reflexivity.
Defined.
